(** * Kusanagi Night Ops URL scraper (kno-url.c): model and properties

    A shallow embedding of [kno-url.c].  C strings are modelled as
    [string] (the bytes before the terminating NUL), [char *] results that
    may be [NULL] as [option string], and a pointer into a string as the
    suffix it points at.  Allocation is assumed to succeed.  The character
    classes are those of the "C" locale, which the program never changes. *)

From Equations Require Import Equations.
From Equations.Prop Require Import Logic.
From Stdlib Require Import String Ascii List Arith Lia ZArith Bool.
From Stdlib Require Import DecimalString.
From Stdlib Require Import Permutation Sorted.
Import ListNotations.

Local Open Scope list_scope.
Local Open Scope string_scope.

(** ** The C library as the program uses it *)

Module Libc.

Definition strlen (s : string) : nat := String.length s.

(** [isspace]: space, and the controls from tab (9) to carriage return (13). *)
Definition isspace (c : ascii) : bool :=
  let n := nat_of_ascii c in
  (((9 <=? n) && (n <=? 13)) || (n =? 32))%nat.

Definition isdigit (c : ascii) : bool :=
  let n := nat_of_ascii c in ((48 <=? n) && (n <=? 57))%nat.

Definition tolower (c : ascii) : ascii :=
  let n := nat_of_ascii c in
  if ((65 <=? n) && (n <=? 90))%nat then ascii_of_nat (n + 32) else c.

Fixpoint map_string (f : ascii -> ascii) (s : string) : string :=
  match s with
  | EmptyString => EmptyString
  | String c s' => String (f c) (map_string f s')
  end.

(** [has_prefix s lit] is [!strncmp(s, lit, strlen(lit))]. *)
Fixpoint has_prefix (s lit : string) {struct lit} : bool :=
  match lit, s with
  | EmptyString, _ => true
  | String a lit', String b s' => Ascii.eqb b a && has_prefix s' lit'
  | String _ _, EmptyString => false
  end.

(** [strstr h n]: the suffix of [h] at the first occurrence of [n]. *)
Fixpoint strstr (h n : string) : option string :=
  if has_prefix h n then Some h
  else match h with
       | EmptyString => None
       | String _ h' => strstr h' n
       end.

(** [strchr s c], for a [c] that is not NUL. *)
Fixpoint strchr (s : string) (c : ascii) : option string :=
  match s with
  | EmptyString => None
  | String a s' => if Ascii.eqb a c then Some s else strchr s' c
  end.

(** [strrchr s c]: the suffix at the last occurrence. *)
Fixpoint strrchr (s : string) (c : ascii) : option string :=
  match s with
  | EmptyString => None
  | String a s' =>
      match strrchr s' c with
      | Some r => Some r
      | None => if Ascii.eqb a c then Some s else None
      end
  end.

(** [strcmp a b == 0]. *)
Definition streq (a b : string) : bool := String.eqb a b.

Fixpoint take (n : nat) (s : string) : string :=
  match n, s with
  | S n', String c s' => String c (take n' s')
  | _, _ => EmptyString
  end.

Fixpoint join (sep : string) (l : list string) : string :=
  match l with
  | [] => EmptyString
  | [x] => x
  | x :: l' => x ++ sep ++ join sep l'
  end.

End Libc.
Import Libc.

(** ** Case-insensitive substring search: [strcasestr_bool] *)

(** The inner [for (j ...)] loop at one offset of the haystack. *)
Fixpoint match_ci_at (h n : string) {struct n} : bool :=
  match n, h with
  | EmptyString, _ => true
  | String c2 n', String c1 h' =>
      Ascii.eqb (tolower c1) (tolower c2) && match_ci_at h' n'
  | String _ _, EmptyString => false
  end.

(** The outer [for (i ...)] loop: [i] runs while [i + nn <= nh]. *)
Fixpoint strcasestr_from (h n : string) : bool :=
  if (strlen n <=? strlen h)%nat && match_ci_at h n then true
  else match h with
       | EmptyString => false
       | String _ h' => strcasestr_from h' n
       end.

Definition strcasestr_bool (haystack needle : string) : bool :=
  match needle with
  | EmptyString => false
  | _ =>
      if (strlen haystack <? strlen needle)%nat then false
      else strcasestr_from haystack needle
  end.

(** ** URL normalization: [normalize_url] *)

Definition normalize_url (u : string) : option string :=
  match u with
  | EmptyString => None
  | _ =>
      if has_prefix u "http://" || has_prefix u "https://" then Some u
      else if has_prefix u "www." then Some ("https://" ++ u)
      else
        match strchr u ".", strchr u ":" with
        | None, None => Some u
        | _, _ => Some ("https://" ++ u)
        end
  end.

(** ** Tokenizer: [split_tokens] *)

Fixpoint skip_spaces (p : string) : string :=
  match p with
  | String c p' => if isspace c then skip_spaces p' else p
  | EmptyString => EmptyString
  end.

(** One token from [p]: the run of non-space characters and what follows
    the separator that the code overwrites with NUL. *)
Fixpoint token_span (p : string) : string * string :=
  match p with
  | EmptyString => (EmptyString, EmptyString)
  | String c p' =>
      if isspace c then (EmptyString, p')
      else let '(t, r) := token_span p' in (String c t, r)
  end.

(** [split_tokens]: every iteration fills one of the [max_tokens] slots. *)
Fixpoint split_tokens (line : string) (max_tokens : nat) : list string :=
  match max_tokens with
  | O => []
  | S max' =>
      match skip_spaces line with
      | EmptyString => []
      | String c q =>
          let '(t, r) := token_span (String c q) in
          t :: split_tokens r max'
      end
  end.

(** ** URL extraction: [extract_urls_from_html] *)

(** The double and the single quote. *)
Definition dquote : ascii := "034"%char.
Definition squote : ascii := "039"%char.

(** The characters that end a URL token: [isspace], or one of the four
    the inner [while] tests for. *)
Definition url_stop (c : ascii) : bool :=
  isspace c || Ascii.eqb c dquote || Ascii.eqb c squote
  || Ascii.eqb c "<" || Ascii.eqb c ">".

(** The inner [while] that advances [q]: the token from [start] up to
    [q], and [q] itself. *)
Fixpoint url_span (q : string) : string * string :=
  match q with
  | EmptyString => (EmptyString, EmptyString)
  | String c q' =>
      if url_stop c then (EmptyString, q)
      else let '(t, r) := url_span q' in (String c t, r)
  end.

(** The three passes differ in their literal only. *)
Inductive scheme : Type := Http | Https | Blob.

Definition scheme_lit (sc : scheme) : string :=
  match sc with
  | Http => "http://"
  | Https => "https://"
  | Blob => "blob:"
  end.

Lemma strstr_shorter h n r :
  strstr h n = Some r -> strlen r <= strlen h /\ has_prefix r n = true.
Proof.
  induction h as [|c h IH]; cbn [strstr].
  - destruct (has_prefix "" n) eqn:E; [intros [= <-]; auto | discriminate].
  - destruct (has_prefix (String c h) n) eqn:E.
    + intros [= <-]; auto.
    + intros H; destruct (IH H); split; auto. cbn; auto.
Qed.

Lemma url_span_shorter q : strlen (snd (url_span q)) <= strlen q.
Proof.
  induction q as [|c q IH]; cbn; auto.
  destruct (url_stop c); cbn; auto.
  destruct (url_span q); cbn in *; auto.
Qed.

Lemma scheme_lit_head sc c s :
  has_prefix (String c s) (scheme_lit sc) = true -> url_stop c = false.
Proof.
  destruct sc; cbn [scheme_lit has_prefix]; intros H;
    apply andb_prop in H; destruct H as [H _];
    apply Ascii.eqb_eq in H; subst c; reflexivity.
Qed.

Lemma scan_progress sc p start :
  strstr p (scheme_lit sc) = Some start ->
  strlen (snd (url_span start)) < strlen p.
Proof.
  intros H; apply strstr_shorter in H; destruct H as [Hl Hp].
  destruct start as [|c s]; [destruct sc; discriminate|].
  cbn [url_span]; rewrite (scheme_lit_head _ _ _ Hp).
  pose proof (url_span_shorter s) as Hs.
  destruct (url_span s); unfold strlen in *; simpl in *; lia.
Qed.

(** One pass: [while ((p = strstr(p, lit)) != NULL) { ...; p = q; }].
    The result lists the tokens in the order [sl_add] appends them. *)
Equations? scan_scheme (sc : scheme) (p : string) : list string
  by wf (strlen p) lt :=
  scan_scheme sc p with inspect (strstr p (scheme_lit sc)) := {
    | exist _ None _ => [];
    | exist _ (Some start) _ =>
        fst (url_span start) :: scan_scheme sc (snd (url_span start)) }.
Proof. eapply scan_progress; eassumption. Qed.

Definition extract_urls_from_html (html : string) (urls : list string)
  : list string :=
  (urls ++ scan_scheme Http html ++ scan_scheme Https html
        ++ scan_scheme Blob html)%list.

(** ** Categorization: [get_ext] and [categorize_url] *)

Definition get_ext (url : string) : string :=
  match strrchr url "." with
  | None => ""
  | Some p =>
      match strchr p "/" with
      | Some _ => ""
      | None => p
      end
  end.

(** The labels of [names] in [run_html_mode], in display order. *)
Definition names : list string :=
  ["SCRIPTS"; "MEDIA"; "API / ENDPOINTS";
   "DOCUMENTS / CONFIG"; "HTML / FRAMEWORK"; "OTHER"].

Definition ext_in (ext : string) (table : list string) : bool :=
  existsb (streq ext) table.

Definition has_substr (url lit : string) : bool :=
  match strstr url lit with Some _ => true | None => false end.

Definition categorize_url (url : string) : string :=
  let ext := get_ext url in
  let lower_ext :=
    if (strlen ext <? 16)%nat then map_string tolower ext else "" in
  if has_substr url "/api/" || strcasestr_bool url "graphql"
  then "API / ENDPOINTS"
  else if ext_in lower_ext [".js"; ".mjs"] then "SCRIPTS"
  else if ext_in lower_ext [".png"; ".jpg"; ".jpeg"; ".gif"; ".svg";
                            ".webp"; ".ico"; ".mp4"; ".mov"; ".wav"]
  then "MEDIA"
  else if ext_in lower_ext [".json"; ".xml"; ".yml"; ".yaml"; ".pdf";
                            ".txt"; ".doc"; ".docx"; ".csv"]
  then "DOCUMENTS / CONFIG"
  else if ext_in lower_ext [".html"; ".htm"]
          || has_substr url ".bundle.js" || has_substr url ".chunk.js"
  then "HTML / FRAMEWORK"
  else "OTHER".

(** ** Duration parsing: [parse_duration_seconds] *)

(** [long] is 64 bits wide; arithmetic on it wraps around. *)
Definition LONG_MAX : Z := 2 ^ 63 - 1.

Definition wrap_long (z : Z) : Z := ((z + 2 ^ 63) mod 2 ^ 64 - 2 ^ 63)%Z.

Definition digit_value (c : ascii) : Z := (Z.of_nat (nat_of_ascii c) - 48)%Z.

(** The first loop: drop white space, lower the case, stop when [buf]
    has [room] for no more. *)
Fixpoint squeeze_lower (room : nat) (s : string) {struct s} : string :=
  match room, s with
  | S room', String c s' =>
      if isspace c then squeeze_lower room s'
      else String (tolower c) (squeeze_lower room' s')
  | _, _ => EmptyString
  end.

Fixpoint all_digits (buf : string) : bool :=
  match buf with
  | EmptyString => true
  | String c b => isdigit c && all_digits b
  end.

Fixpoint decimal (buf : string) (acc : Z) : Z :=
  match buf with
  | String c b =>
      if isdigit c then decimal b (acc * 10 + digit_value c)%Z else acc
  | EmptyString => acc
  end.

(** [atol] on a string of digits; out of range it gives [LONG_MAX], as
    [strtol] does. *)
Definition atol (buf : string) : Z := Z.min (decimal buf 0) LONG_MAX.

(** The inner [while (isdigit(buf[i]))]: the value read and the rest. *)
Fixpoint read_number (buf : string) (val : Z) : Z * string :=
  match buf with
  | String c b =>
      if isdigit c
      then read_number b (wrap_long (val * 10 + digit_value c))
      else (val, buf)
  | EmptyString => (val, EmptyString)
  end.

Definition finish_duration (total : Z) : Z :=
  if (0 <? total)%Z then total else (-1)%Z.

Lemma read_number_shorter buf val :
  strlen (snd (read_number buf val)) <= strlen buf.
Proof.
  revert val; induction buf as [|c b IH]; intros val; cbn; auto.
  destruct (isdigit c); cbn; auto.
Qed.

(** The [while (buf[i])] loop over the units. *)
Equations? duration_units (buf : string) (total : Z) : Z
  by wf (strlen buf) lt :=
  duration_units EmptyString total := finish_duration total;
  duration_units (String c b) total with inspect (isdigit c) := {
    | exist _ false _ => (-1)%Z;
    | exist _ true _ with inspect (read_number (String c b) 0) := {
        | exist _ (val, EmptyString) _ =>
            finish_duration (wrap_long (total + val));
        | exist _ (val, String unit rest) _ =>
            if Ascii.eqb unit "h"
            then duration_units rest (wrap_long (total + wrap_long (val * 3600)))
            else if Ascii.eqb unit "m"
            then duration_units rest (wrap_long (total + wrap_long (val * 60)))
            else if Ascii.eqb unit "s"
            then duration_units rest (wrap_long (total + val))
            else (-1)%Z } }.
Proof.
  all: match goal with
       | D : isdigit ?c = true, H : (if isdigit ?c then _ else _) = _ |- _ =>
           rewrite D in H;
           match type of H with
           | read_number ?b ?v = _ =>
               pose proof (read_number_shorter b v) as Hlen; rewrite H in Hlen
           end
       end; unfold strlen in *; simpl in *; lia.
Qed.

Definition parse_duration_seconds (s : string) : Z :=
  match s with
  | EmptyString => (-1)%Z
  | _ =>
      match squeeze_lower 127 s with
      | EmptyString => (-1)%Z
      | buf => if all_digits buf then atol buf else duration_units buf 0
      end
  end.

(** ** The filter of [run_html_mode] *)

(** The locals that the argument loop of [run_html_mode] sets. *)
Record ScrapeFlags : Type := {
  use_scripts : bool;
  use_media : bool;
  use_api : bool;
  use_docs : bool;
  use_html : bool;
  use_other : bool;
  no_media_mode : bool;
  output_file : option string;
  full_mode : bool;
  search_terms : list string
}.

Definition no_flags : ScrapeFlags :=
  {| use_scripts := false; use_media := false; use_api := false;
     use_docs := false; use_html := false; use_other := false;
     no_media_mode := false; output_file := None; full_mode := false;
     search_terms := [] |}.

(** [strtok(val, ",")] until it returns [NULL]: the non-empty fields. *)
Fixpoint comma_fields (s cur : string) : list string :=
  match s with
  | EmptyString => [cur]
  | String c s' =>
      if Ascii.eqb c "," then cur :: comma_fields s' EmptyString
      else comma_fields s' (cur ++ String c EmptyString)
  end.

Definition nonempty (s : string) : bool :=
  match s with EmptyString => false | _ => true end.

Definition strtok_commas (val : string) : list string :=
  filter nonempty (comma_fields val EmptyString).

Definition add_search_terms (terms : list string) (val : string)
  : list string :=
  (terms ++ filter nonempty (map skip_spaces (strtok_commas val)))%list.

(** The assignments of the argument loop. *)
Definition set_use_scripts (f : ScrapeFlags) : ScrapeFlags :=
  {| use_scripts := true; use_media := use_media f; use_api := use_api f;
     use_docs := use_docs f; use_html := use_html f;
     use_other := use_other f; no_media_mode := no_media_mode f;
     output_file := output_file f; full_mode := full_mode f;
     search_terms := search_terms f |}.

Definition set_use_media (f : ScrapeFlags) : ScrapeFlags :=
  {| use_scripts := use_scripts f; use_media := true; use_api := use_api f;
     use_docs := use_docs f; use_html := use_html f;
     use_other := use_other f; no_media_mode := no_media_mode f;
     output_file := output_file f; full_mode := full_mode f;
     search_terms := search_terms f |}.

Definition set_use_api (f : ScrapeFlags) : ScrapeFlags :=
  {| use_scripts := use_scripts f; use_media := use_media f; use_api := true;
     use_docs := use_docs f; use_html := use_html f;
     use_other := use_other f; no_media_mode := no_media_mode f;
     output_file := output_file f; full_mode := full_mode f;
     search_terms := search_terms f |}.

Definition set_use_docs (f : ScrapeFlags) : ScrapeFlags :=
  {| use_scripts := use_scripts f; use_media := use_media f;
     use_api := use_api f; use_docs := true; use_html := use_html f;
     use_other := use_other f; no_media_mode := no_media_mode f;
     output_file := output_file f; full_mode := full_mode f;
     search_terms := search_terms f |}.

Definition set_use_html (f : ScrapeFlags) : ScrapeFlags :=
  {| use_scripts := use_scripts f; use_media := use_media f;
     use_api := use_api f; use_docs := use_docs f; use_html := true;
     use_other := use_other f; no_media_mode := no_media_mode f;
     output_file := output_file f; full_mode := full_mode f;
     search_terms := search_terms f |}.

Definition set_use_other (f : ScrapeFlags) : ScrapeFlags :=
  {| use_scripts := use_scripts f; use_media := use_media f;
     use_api := use_api f; use_docs := use_docs f; use_html := use_html f;
     use_other := true; no_media_mode := no_media_mode f;
     output_file := output_file f; full_mode := full_mode f;
     search_terms := search_terms f |}.

Definition set_no_media_mode (f : ScrapeFlags) : ScrapeFlags :=
  {| use_scripts := use_scripts f; use_media := use_media f;
     use_api := use_api f; use_docs := use_docs f; use_html := use_html f;
     use_other := use_other f; no_media_mode := true;
     output_file := output_file f; full_mode := full_mode f;
     search_terms := search_terms f |}.

Definition set_full_mode (f : ScrapeFlags) : ScrapeFlags :=
  {| use_scripts := use_scripts f; use_media := use_media f;
     use_api := use_api f; use_docs := use_docs f; use_html := use_html f;
     use_other := use_other f; no_media_mode := no_media_mode f;
     output_file := output_file f; full_mode := true;
     search_terms := search_terms f |}.

Definition set_output_file (path : string) (f : ScrapeFlags) : ScrapeFlags :=
  {| use_scripts := use_scripts f; use_media := use_media f;
     use_api := use_api f; use_docs := use_docs f; use_html := use_html f;
     use_other := use_other f; no_media_mode := no_media_mode f;
     output_file := Some path; full_mode := full_mode f;
     search_terms := search_terms f |}.

Definition add_search (val : string) (f : ScrapeFlags) : ScrapeFlags :=
  {| use_scripts := use_scripts f; use_media := use_media f;
     use_api := use_api f; use_docs := use_docs f; use_html := use_html f;
     use_other := use_other f; no_media_mode := no_media_mode f;
     output_file := output_file f; full_mode := full_mode f;
     search_terms := add_search_terms (search_terms f) val |}.

(** The argument loop of [run_html_mode]; [-o] and [--search] take the
    next argument when there is one. *)
Fixpoint parse_flags (args : list string) (f : ScrapeFlags) : ScrapeFlags :=
  match args with
  | [] => f
  | a :: rest =>
      if streq a "-s" then parse_flags rest (set_use_scripts f)
      else if streq a "-md" then parse_flags rest (set_use_media f)
      else if streq a "-a" then parse_flags rest (set_use_api f)
      else if streq a "-d" then parse_flags rest (set_use_docs f)
      else if streq a "-ht" then parse_flags rest (set_use_html f)
      else if streq a "-O" then parse_flags rest (set_use_other f)
      else if streq a "--no-media" then
        parse_flags rest (set_no_media_mode f)
      else
        match streq a "-o", streq a "--search", rest with
        | true, _, v :: rest' => parse_flags rest' (set_output_file v f)
        | false, true, v :: rest' => parse_flags rest' (add_search v f)
        | _, _, _ =>
            if streq a "--full" then parse_flags rest (set_full_mode f)
            else parse_flags rest f
        end
  end.

Definition have_cat_flags (f : ScrapeFlags) : bool :=
  use_scripts f || use_media f || use_api f || use_docs f || use_html f
  || use_other f.

(** The six tests that set [wanted], and again [excluded]: the category
    of the URL is one whose flag is set. *)
Definition flagged (f : ScrapeFlags) (cat : string) : bool :=
  (streq cat "SCRIPTS" && use_scripts f)
  || (streq cat "MEDIA" && use_media f)
  || (streq cat "API / ENDPOINTS" && use_api f)
  || (streq cat "DOCUMENTS / CONFIG" && use_docs f)
  || (streq cat "HTML / FRAMEWORK" && use_html f)
  || (streq cat "OTHER" && use_other f).

Definition matches_search (f : ScrapeFlags) (u : string) : bool :=
  match search_terms f with
  | [] => true
  | terms => existsb (strcasestr_bool u) terms
  end.

(** The six [StrList]s that the loop over [all_urls] fills. *)
Record Buckets : Type := {
  cat_scripts : list string;
  cat_media : list string;
  cat_api : list string;
  cat_docs : list string;
  cat_html_list : list string;
  cat_other : list string
}.

Definition empty_buckets : Buckets :=
  {| cat_scripts := []; cat_media := []; cat_api := []; cat_docs := [];
     cat_html_list := []; cat_other := [] |}.

Definition sl_add (sl : list string) (s : string) : list string :=
  (sl ++ [s])%list.

Definition add_to_bucket (b : Buckets) (cat u : string) : Buckets :=
  if streq cat "SCRIPTS" then
    {| cat_scripts := sl_add (cat_scripts b) u; cat_media := cat_media b;
       cat_api := cat_api b; cat_docs := cat_docs b;
       cat_html_list := cat_html_list b; cat_other := cat_other b |}
  else if streq cat "MEDIA" then
    {| cat_scripts := cat_scripts b; cat_media := sl_add (cat_media b) u;
       cat_api := cat_api b; cat_docs := cat_docs b;
       cat_html_list := cat_html_list b; cat_other := cat_other b |}
  else if streq cat "API / ENDPOINTS" then
    {| cat_scripts := cat_scripts b; cat_media := cat_media b;
       cat_api := sl_add (cat_api b) u; cat_docs := cat_docs b;
       cat_html_list := cat_html_list b; cat_other := cat_other b |}
  else if streq cat "DOCUMENTS / CONFIG" then
    {| cat_scripts := cat_scripts b; cat_media := cat_media b;
       cat_api := cat_api b; cat_docs := sl_add (cat_docs b) u;
       cat_html_list := cat_html_list b; cat_other := cat_other b |}
  else if streq cat "HTML / FRAMEWORK" then
    {| cat_scripts := cat_scripts b; cat_media := cat_media b;
       cat_api := cat_api b; cat_docs := cat_docs b;
       cat_html_list := sl_add (cat_html_list b) u;
       cat_other := cat_other b |}
  else
    {| cat_scripts := cat_scripts b; cat_media := cat_media b;
       cat_api := cat_api b; cat_docs := cat_docs b;
       cat_html_list := cat_html_list b;
       cat_other := sl_add (cat_other b) u |}.

(** Does the body of the loop reach the [sl_add] calls for [u]?  The three
    [continue]s, in the order of the source. *)
Definition passes_filters (f : ScrapeFlags) (u : string) : bool :=
  if negb (matches_search f u) then false
  else
    let cat := categorize_url u in
    if have_cat_flags f && negb (flagged f cat) then false
    else if no_media_mode f && flagged f cat then false
    else true.

Definition filter_step (f : ScrapeFlags) (b : Buckets) (u : string)
  : Buckets :=
  if passes_filters f u then add_to_bucket b (categorize_url u) u else b.

Definition fill_buckets (f : ScrapeFlags) (all_urls : list string)
  : Buckets :=
  fold_left (filter_step f) all_urls empty_buckets.

Definition bucket_list (b : Buckets) : list (list string) :=
  [cat_scripts b; cat_media b; cat_api b; cat_docs b; cat_html_list b;
   cat_other b].

(** The URLs that survive the filters, over all six lists. *)
Definition kept_urls (f : ScrapeFlags) (all_urls : list string)
  : list string :=
  concat (bucket_list (fill_buckets f all_urls)).

(** ** Grouping and ordering: [cmp_uwe] and the output lines *)

(** [strcmp] orders strings by their bytes, taken as unsigned. *)
Definition strcmp (a b : string) : comparison := String.compare a b.

(** [cmp_uwe] on the pairs (url, ext) with [ext = get_ext url]. *)
Definition cmp_uwe (ua ub : string) : comparison :=
  match strcmp (get_ext ua) (get_ext ub) with
  | Eq => strcmp ua ub
  | c => c
  end.

(** [qsort] with [cmp_uwe]: entries that compare equal are the same URL,
    so every sorting algorithm gives the same array. *)
Fixpoint insert_uwe (u : string) (sorted : list string) : list string :=
  match sorted with
  | [] => [u]
  | v :: rest =>
      match cmp_uwe u v with
      | Gt => v :: insert_uwe u rest
      | _ => u :: sorted
      end
  end.

Definition qsort_uwe (l : list string) : list string :=
  fold_right insert_uwe [] l.

Definition has_ext (u : string) : bool := nonempty (get_ext u).

(** The lines of one category: nothing when the list is empty. *)
Definition group_lines (name : string) (cl : list string) : list string :=
  match cl with
  | [] => []
  | _ =>
      (name :: qsort_uwe (filter has_ext cl)
            ++ filter (fun u => negb (has_ext u)) cl ++ [""])%list
  end.

Definition out_lines (b : Buckets) : list string :=
  concat (map (fun nc => group_lines (fst nc) (snd nc))
              (combine names (bucket_list b))).

(** ** Command parsing: the body of the loop of [main] up to the dispatch *)

Definition MAX_LINE : nat := 4096.

Definition newline : ascii := "010"%char.

(** The newline that [fgets] leaves at the end of the line is cut off. *)
Fixpoint chomp (line : string) : string :=
  match line with
  | EmptyString => EmptyString
  | String c EmptyString =>
      if Ascii.eqb c newline then EmptyString else line
  | String c rest => String c (chomp rest)
  end.

(** [a[0] == '-'] *)
Definition starts_dash (a : string) : bool :=
  match a with
  | String c _ => Ascii.eqb c "-"
  | EmptyString => false
  end.

Definition looks_like_url (t : string) : bool :=
  has_prefix t "http://" || has_prefix t "https://" || has_prefix t "www.".

(** The fallback [for] loop: the first token that looks like a URL and
    the tokens from [arg_start = i + 1] on. *)
Fixpoint scan_for_url (tokens : list string)
  : option (string * list string) :=
  match tokens with
  | [] => None
  | t :: rest =>
      if looks_like_url t then Some (t, rest) else scan_for_url rest
  end.

(** [url] and [args] after the three-way URL detection; [args] is cut to
    the 64 slots of the array. *)
Definition locate_url (tokens : list string)
  : option string * list string :=
  match tokens with
  | [] => (None, [])
  | t0 :: rest0 =>
      match streq t0 "-u", rest0 with
      | true, t1 :: rest1 => (normalize_url t1, firstn 64 rest1)
      | _, _ =>
          if negb (starts_dash t0) then (normalize_url t0, firstn 64 rest0)
          else
            match scan_for_url tokens with
            | Some (t, rest) => (normalize_url t, firstn 64 rest)
            | None => (None, firstn 64 tokens)
            end
      end
  end.

(** The first [-sd] of [args]: what stands before it and after it. *)
Fixpoint split_at_sd (args : list string)
  : option (list string * list string) :=
  match args with
  | [] => None
  | a :: rest =>
      if streq a "-sd" then Some ([], rest)
      else
        match split_at_sd rest with
        | Some (before, after) => Some (a :: before, after)
        | None => None
        end
  end.

(** [while (j < aargc && args[j][0] != '-')]: the tokens of the duration
    and the arguments from [j] on. *)
Fixpoint duration_tokens (args : list string)
  : list string * list string :=
  match args with
  | [] => ([], [])
  | a :: rest =>
      if starts_dash a then ([], args)
      else let '(run, after) := duration_tokens rest in (a :: run, after)
  end.

(** The [strncat] calls into [durbuf[128]]. *)
Definition durbuf_of (run : list string) : string :=
  take 127 (join " " run).

(** Why a line is turned down; [rejection_message] is what is printed. *)
Inductive rejection : Type :=
| EmptyLine
| NoTokens
| NoUrl
| SdNeedsDuration
| SdInvalid (durbuf : string)
| SdWithoutNightOps
| NightOpsWithoutSd
| UnknownFlag (flag : string).

Definition rejection_message (r : rejection) : string :=
  match r with
  | EmptyLine => "[-] No URL detected. Use -h or --help for usage."
  | NoTokens => "[-] No URL detected."
  | NoUrl =>
      "[-] No URL detected. Use -h or --help for usage, or use '--night-ops' alone."
  | SdNeedsDuration =>
      "Error: -sd requires a duration like '90s' or '1h30m'."
  | SdInvalid durbuf => "Error: invalid -sd duration: " ++ durbuf
  | SdWithoutNightOps =>
      "Error: -sd can only be used together with --night-ops."
  | NightOpsWithoutSd =>
      "Error: --night-ops can't be ran along side other commands unless -sd is defined with a time to execute"
  | UnknownFlag flag => "Error: That flag does not exist: " ++ flag
  end.

(** What one line asks for. *)
Inductive command : Type :=
| Rejected (r : rejection)
| Help
| NightOpsStandalone
| NetworkMode (url : string)
| Scrape (url : string) (args : list string) (night_ops : bool)
         (sd_seconds : Z).

(** The [-sd] loop: [sd_seconds] and the arguments left, or the error. *)
Definition parse_sd (args : list string)
  : rejection + (Z * list string) :=
  match split_at_sd args with
  | None => inr ((-1)%Z, args)
  | Some (before, rest) =>
      let '(run, after) := duration_tokens rest in
      let durbuf := durbuf_of run in
      match durbuf with
      | EmptyString => inl SdNeedsDuration
      | _ =>
          let sd_seconds := parse_duration_seconds durbuf in
          if (sd_seconds <=? 0)%Z then inl (SdInvalid durbuf)
          else inr (sd_seconds, (before ++ after)%list)
      end
  end.

Definition valid_flags : list string :=
  ["-s"; "-md"; "-a"; "-d"; "-ht"; "-O";
   "--no-media"; "--search"; "--full";
   "-o"; "-u"; "-h"; "--help"].

Definition known_flag (a : string) : bool := existsb (streq a) valid_flags.

(** The unknown-flag loop: the argument it stops at. *)
Fixpoint first_unknown_flag (args : list string) : option string :=
  match args with
  | [] => None
  | a :: rest =>
      if negb (starts_dash a) then first_unknown_flag rest
      else if known_flag a then first_unknown_flag rest
      else Some a
  end.

Definition is_night_ops (a : string) : bool := streq a "--night-ops".

(** The [--night-ops] and [-sd] part: the [-sd] loop, then the two tests
    on the combination, then the removal of [--night-ops].  It gives
    [night_ops], [sd_seconds] and the arguments that are left. *)
Definition night_ops_checks (args : list string)
  : rejection + (bool * Z * list string) :=
  let night_ops := existsb is_night_ops args in
  match parse_sd args with
  | inl r => inl r
  | inr (sd_seconds, args1) =>
      if (0 <=? sd_seconds)%Z && negb night_ops
      then inl SdWithoutNightOps
      else if night_ops && (sd_seconds <? 0)%Z
      then inl NightOpsWithoutSd
      else
        inr (night_ops, sd_seconds,
             if night_ops
             then filter (fun a => negb (is_night_ops a)) args1
             else args1)
  end.

(** From the URL detection to the call of [run_html_mode]: no URL, the
    night-ops checks, network mode, the unknown flags, in this order. *)
Definition parse_command (tokens : list string) : command :=
  match locate_url tokens with
  | (None, _) => Rejected NoUrl
  | (Some url, args) =>
      match night_ops_checks args with
      | inl r => Rejected r
      | inr (night_ops, sd_seconds, args2) =>
          if existsb (fun a => streq a "-n") args2 then NetworkMode url
          else
            match first_unknown_flag args2 with
            | Some flag => Rejected (UnknownFlag flag)
            | None => Scrape url args2 night_ops sd_seconds
            end
      end
  end.

(** One line as [fgets] returned it. *)
Definition parse_line (raw : string) : command :=
  match chomp raw with
  | EmptyString => Rejected EmptyLine
  | line =>
      match split_tokens line 64 with
      | [] => Rejected NoTokens
      | [t] =>
          if streq t "-h" || streq t "--help" then Help
          else if streq t "--night-ops" then NightOpsStandalone
          else parse_command [t]
      | tokens => parse_command tokens
      end
  end.

(** ** The session: standard input, the file system and what is printed *)

(** What [fetch_html] returns: the page, or [NULL] after these lines on
    standard error. *)
Inductive fetched : Type :=
| Html (body : string)
| NoHtml (errors : list string).

(** The system calls of the program, over a file system [FS].  The calls
    that can fail return [None] when they do. *)
Class OS (FS : Type) : Type := {
  fetch_html : string -> fetched;
  is_directory : FS -> string -> bool;
  rmdir : FS -> string -> option FS;
  remove : FS -> string -> option FS;
  write_file : FS -> string -> string -> option FS
}.

Inductive event : Type :=
| Out (text : string)
| Err (text : string)
| Fetch (url : string)
| Sleep (seconds : Z).

Record World (FS : Type) : Type := {
  stdin : string;
  fs : FS;
  trace : list event
}.
Arguments stdin {FS} _.
Arguments fs {FS} _.
Arguments trace {FS} _.

(** How an iteration of the loop of [main] ends. *)
Inductive step_result (FS : Type) : Type :=
| Continue (w : World FS)
| Return (code : Z) (w : World FS).
Arguments Continue {FS} _.
Arguments Return {FS} _ _.

(** [fgets(buf, size, stdin)]: at most [size - 1] characters, up to and
    with the first newline; [None] at the end of the input. *)
Fixpoint fgets_span (room : nat) (input : string) : string * string :=
  match room, input with
  | S room', String c rest =>
      if Ascii.eqb c newline then (String c EmptyString, rest)
      else let '(l, r) := fgets_span room' rest in (String c l, r)
  | _, _ => (EmptyString, input)
  end.

Definition fgets (size : nat) (input : string) : option (string * string) :=
  match input with
  | EmptyString => None
  | _ => Some (fgets_span (size - 1) input)
  end.

(** [ans[0] == 'y' || ans[0] == 'Y'] *)
Definition affirmative (ans : string) : bool :=
  match ans with
  | String c _ => Ascii.eqb c "y" || Ascii.eqb c "Y"
  | EmptyString => false
  end.

Definition string_of_long (z : Z) : string :=
  NilZero.string_of_int (Z.to_int z).

Definition backslash : ascii := "092"%char.

Definition is_sep (c : ascii) : bool :=
  Ascii.eqb c "/" || Ascii.eqb c backslash.

(** [path_copy] cut at its last separator, if it has one. *)
Fixpoint cut_at_last_sep (path : string) : option string :=
  match path with
  | EmptyString => None
  | String c rest =>
      match cut_at_last_sep rest with
      | Some d => Some (String c d)
      | None => if is_sep c then Some EmptyString else None
      end
  end.

Definition kno_dir_of (exe_path : string) : string :=
  match cut_at_last_sep exe_path with
  | Some d => d ++ "/.kno-url"
  | None => "./.kno-url"
  end.

Definition help_lines : list string :=
  ["Kusanagi Night Ops: URL Scrapper (C Edition)";
   "HTML mode flags:";
   "  -s -md -a -d -ht -O    category filters";
   "  --no-media             treat selected as exclusions";
   "  --search term1,term2   substring filter";
   "  --full                 dump full HTML";
   "  -o file                write output to file";
   "Network mode:";
   "  -n                     Network mode not supported in this version (with noise warning)";
   "Night Ops:";
   "  --night-ops            cleanup & self-destruct";
   "  --night-ops -sd 90s    schedule self-destruct"].

Section Session.

Context {FS : Type} `{OS FS}.

(** [g_exe_path], set once from [argv[0]]. *)
Variable g_exe_path : option string.

Definition log (e : event) (w : World FS) : World FS :=
  {| stdin := stdin w; fs := fs w; trace := (trace w ++ [e])%list |}.

(** [printf] of one line. *)
Definition say (text : string) (w : World FS) : World FS :=
  log (Out (text ++ String newline EmptyString)) w.

Definition complain (text : string) (w : World FS) : World FS :=
  log (Err (text ++ String newline EmptyString)) w.

Definition say_all (lines : list string) (w : World FS) : World FS :=
  fold_left (fun w l => say l w) lines w.

Definition set_fs (fs' : FS) (w : World FS) : World FS :=
  {| stdin := stdin w; fs := fs'; trace := trace w |}.

(** Read an answer of at most 15 characters. *)
Definition read_answer (w : World FS) : option string * World FS :=
  match fgets 16 (stdin w) with
  | None => (None, w)
  | Some (ans, rest) =>
      (Some ans, {| stdin := rest; fs := fs w; trace := trace w |})
  end.

Definition night_ops_cleanup (w : World FS) : World FS :=
  let w := say "[*] --night-ops: attempting local cleanup..." w in
  let w :=
    match g_exe_path with
    | None => w
    | Some exe =>
        let kno_dir := kno_dir_of exe in
        let w :=
          if is_directory (fs w) kno_dir then
            match rmdir (fs w) kno_dir with
            | Some fs' =>
                say ("[*] Removed directory " ++ kno_dir ++ " (if empty).")
                    (set_fs fs' w)
            | None =>
                say ("[!] Could not remove directory (might not be empty): "
                     ++ kno_dir) w
            end
          else w in
        match remove (fs w) exe with
        | Some fs' => say ("[*] Removed executable " ++ exe) (set_fs fs' w)
        | None =>
            say ("[!] Could not delete executable (possibly in use): " ++ exe)
                w
        end
    end in
  say "[+] Self-destruct complete. Exiting." w.

(** [fopen(path, "w")], the writes and [fclose], with the two reports. *)
Definition write_output (path content done : string) (w : World FS)
  : World FS :=
  match write_file (fs w) path content with
  | Some fs' => say (done ++ path) (set_fs fs' w)
  | None => complain ("[-] Failed to write to " ++ path) w
  end.

Definition run_html_mode (url : string) (args : list string) (w : World FS)
  : World FS :=
  let f := parse_flags args no_flags in
  let w := say ("[*] Fetching HTML from " ++ url ++ " ...") w in
  let w := log (Fetch url) w in
  match fetch_html url with
  | NoHtml errors => fold_left (fun w e => log (Err e) w) errors w
  | Html html =>
      if full_mode f then
        let w :=
          match output_file f with
          | Some path => write_output path html "[*] Full HTML written to " w
          | None => w
          end in
        say html w
      else
        let all_urls := extract_urls_from_html html [] in
        match out_lines (fill_buckets f all_urls) with
        | [] => say "[*] No URLs matched filters." w
        | lines =>
            let w := say_all lines w in
            match output_file f with
            | Some path =>
                write_output path
                  (String.concat ""
                     (map (fun l => l ++ String newline EmptyString) lines))
                  "[*] Results written to " w
            | None => w
            end
        end
  end.

(** What [main] does with a parsed line.  The seconds to sleep are cast
    to [unsigned int], 32 bits wide. *)
Definition dispatch (c : command) (w : World FS) : step_result FS :=
  match c with
  | Rejected r => Continue (say (rejection_message r) w)
  | Help => Continue (say_all help_lines w)
  | NightOpsStandalone =>
      let w :=
        log (Out "[!] --night-ops will attempt to delete this binary and local .kno-url dir. Proceed? [y/N]: ")
            w in
      match read_answer w with
      | (None, w) =>
          Continue (log (Out (String newline "[*] --night-ops canceled."
                              ++ String newline EmptyString)) w)
      | (Some ans, w) =>
          if affirmative ans then Return 0 (night_ops_cleanup w)
          else Continue (say "[*] --night-ops canceled; no cleanup performed." w)
      end
  | NetworkMode _ =>
      let w :=
        log (Out "WARNING: Network mode may be noisy for a stealthy Red Team Op, would you like to proceed? [y/N]: ")
            w in
      match read_answer w with
      | (None, w) =>
          Continue (log (Out (String newline "[*] Network mode canceled."
                              ++ String newline EmptyString)) w)
      | (Some ans, w) =>
          if affirmative ans
          then Continue (say "Network mode not supported in this version" w)
          else Continue (say "[*] Network mode canceled." w)
      end
  | Scrape url args night_ops sd_seconds =>
      let w := run_html_mode url args w in
      if night_ops && (0 <? sd_seconds)%Z then
        let w :=
          say ("[*] --night-ops scheduled via -sd, sleeping for "
               ++ string_of_long sd_seconds ++ " seconds before cleanup...")
              w in
        let w := log (Sleep (sd_seconds mod 2 ^ 32)) w in
        Return 0 (night_ops_cleanup w)
      else Continue w
  end.

(** One turn of the [for (;;)] of [main]. *)
Definition main_iteration (w : World FS) : step_result FS :=
  let w := log (Out "Main URL: ") w in
  match fgets MAX_LINE (stdin w) with
  | None => Return 0 w
  | Some (raw, rest) =>
      dispatch (parse_line raw)
               {| stdin := rest; fs := fs w; trace := trace w |}
  end.

End Session.

(** ** The loop of [main] *)

Section Loop.

Context {FS : Type} `{OS FS}.
Variable g_exe_path : option string.

Lemma fgets_span_shorter room input :
  strlen (snd (fgets_span room input)) <= strlen input.
Proof.
  revert input; induction room as [|room IH]; intros [|c rest]; cbn; auto.
  destruct (Ascii.eqb c newline); cbn; auto.
  specialize (IH rest). destruct (fgets_span room rest); cbn in *. auto.
Qed.

Lemma fgets_shorter size input line rest :
  2 <= size -> fgets size input = Some (line, rest) ->
  strlen rest < strlen input.
Proof.
  intros Hsize. unfold fgets. destruct input as [|c input]; [discriminate|].
  destruct size as [|[|room]]; [lia | lia |].
  cbn [Nat.sub fgets_span].
  destruct (Ascii.eqb c newline);
    [intros [= _ <-]; unfold strlen; simpl; lia|].
  pose proof (fgets_span_shorter room input) as Hs.
  destruct (fgets_span room input). intros [= _ <-].
  unfold strlen in *; simpl in *. lia.
Qed.

Lemma say_all_stdin lines (w : World FS) : stdin (say_all lines w) = stdin w.
Proof.
  unfold say_all. revert w. induction lines as [|l lines IH]; intros w;
    [reflexivity|]. cbn [fold_left]. now rewrite IH.
Qed.

Lemma complain_all_stdin errors (w : World FS) :
  stdin (fold_left (fun w e => log (Err e) w) errors w) = stdin w.
Proof.
  revert w. induction errors as [|e errors IH]; intros w; [reflexivity|].
  cbn [fold_left]. now rewrite IH.
Qed.

Lemma write_output_stdin path content done (w : World FS) :
  stdin (write_output path content done w) = stdin w.
Proof. unfold write_output. now destruct (write_file _ _ _). Qed.

Lemma run_html_mode_stdin url args (w : World FS) :
  stdin (run_html_mode url args w) = stdin w.
Proof.
  unfold run_html_mode. destruct (fetch_html url) as [html|errors].
  - destruct (full_mode _).
    + destruct (output_file _); cbn; [now rewrite write_output_stdin|reflexivity].
    + destruct (out_lines _) as [|l lines]; [reflexivity|].
      destruct (output_file _);
        [rewrite write_output_stdin|]; now rewrite say_all_stdin.
  - now rewrite complain_all_stdin.
Qed.

Lemma read_answer_stdin (w : World FS) :
  strlen (stdin (snd (read_answer w))) <= strlen (stdin w).
Proof.
  unfold read_answer. destruct (fgets 16 (stdin w)) as [[ans rest]|] eqn:E;
    cbn [snd stdin]; [|lia].
  apply fgets_shorter in E; lia.
Qed.

Lemma dispatch_stdin c (w w' : World FS) :
  dispatch g_exe_path c w = Continue w' ->
  strlen (stdin w') <= strlen (stdin w).
Proof.
  assert (Hask : forall (w0 : World FS) text,
             strlen (stdin (snd (read_answer (log (Out text) w0))))
             <= strlen (stdin w0))
    by (intros w0 text; apply (read_answer_stdin (log (Out text) w0))).
  destruct c as [r| | |url|url args night_ops sd]; cbn [dispatch].
  - intros [= <-]. cbn [say log stdin]. lia.
  - intros E. assert (E' : say_all help_lines w = w') by congruence.
    rewrite <- E', say_all_stdin. lia.
  - match goal with
    | |- context [read_answer (log (Out ?text) w)] =>
        specialize (Hask w text);
          destruct (read_answer (log (Out text) w)) as [[ans|] w1]
    end; cbn [snd] in Hask.
    + destruct (affirmative ans); [discriminate|]. now intros [= <-].
    + now intros [= <-].
  - match goal with
    | |- context [read_answer (log (Out ?text) w)] =>
        specialize (Hask w text);
          destruct (read_answer (log (Out text) w)) as [[ans|] w1]
    end; cbn [snd] in Hask.
    + destruct (affirmative ans); now intros [= <-].
    + now intros [= <-].
  - destruct (night_ops && _); [discriminate|]. intros [= <-].
    rewrite run_html_mode_stdin. lia.
Qed.

(** A turn that goes on has read at least one character. *)
Lemma main_iteration_progress (w w' : World FS) :
  main_iteration g_exe_path w = Continue w' ->
  strlen (stdin w') < strlen (stdin w).
Proof.
  unfold main_iteration. cbn [log stdin fs trace].
  destruct (fgets MAX_LINE (stdin w)) as [[raw rest]|] eqn:E; [|discriminate].
  intros Hd. apply dispatch_stdin in Hd. cbn [stdin] in Hd.
  apply fgets_shorter in E; [lia | unfold MAX_LINE; lia].
Qed.

(** The [for (;;)] of [main]: it ends when the input does, or with the
    self-destruct, and gives the value that [main] returns. *)
Equations? main_loop (w : World FS) : Z * World FS
  by wf (strlen (stdin w)) lt :=
  main_loop w with inspect (main_iteration g_exe_path w) := {
    | exist _ (Return code w') _ => (code, w');
    | exist _ (Continue w') _ => main_loop w' }.
Proof. now apply main_iteration_progress. Qed.

End Loop.

(** [main]: [argv[0]] is kept for the cleanup, the banner is printed and
    the loop runs. *)
Definition main {FS : Type} `{OS FS} (argv0 : option string) (w : World FS)
  : Z * World FS :=
  main_loop argv0 (say "Kusanagi Night Ops: URL Scrapper (C Edition)" w).

(** * The vocabulary of the properties *)

(** [lit] occurs in [url]. *)
Definition contains (url lit : string) : Prop :=
  exists pre post, url = pre ++ lit ++ post.

(** [lit] occurs in [url] when the case of the letters is ignored. *)
Definition contains_ci (url lit : string) : Prop :=
  exists pre mid post,
    url = pre ++ mid ++ post /\
    map_string tolower mid = map_string tolower lit.

(** The number of places of [text] where [lit] occurs. *)
Fixpoint count_occurrences (text lit : string) : nat :=
  (if has_prefix text lit then 1 else 0)
  + match text with
    | EmptyString => 0
    | String _ rest => count_occurrences rest lit
    end.

Fixpoint char_in (c : ascii) (s : string) : Prop :=
  match s with
  | EmptyString => False
  | String a rest => a = c \/ char_in c rest
  end.

(** No character of [t] ends a URL token. *)
Definition stop_free (t : string) : Prop :=
  forall c, char_in c t -> url_stop c = false.

(** [post] is empty or begins with a character that ends a URL token. *)
Definition at_stop (post : string) : Prop :=
  match post with
  | EmptyString => True
  | String c _ => url_stop c = true
  end.

(** [t] begins with [lit]. *)
Definition begins_with (t lit : string) : Prop := exists r, t = lit ++ r.

(** [t] is a token of [text] for the scheme [sc]: it begins with the
    literal and runs up to the first character that ends a token, or to
    the end of the text. *)
Definition token_of (sc : scheme) (text t : string) : Prop :=
  exists pre post,
    text = pre ++ t ++ post /\
    has_prefix t (scheme_lit sc) = true /\
    stop_free t /\ at_stop post.

(** The tokens of a left-to-right scan of [text] for the scheme [sc]:
    none when the literal does not occur; else the token at the first
    occurrence of the literal, which runs up to the first character that
    ends a token or to the end of the text, and then the tokens of the
    same scan of the text after that token. *)
Inductive scan_result (sc : scheme) : string -> list string -> Prop :=
| scan_no_occurrence (text : string) :
    ~ contains text (scheme_lit sc) -> scan_result sc text []
| scan_first_token (pre t post : string) (tokens : list string) :
    (forall pre1 post1,
        pre ++ t ++ post = pre1 ++ scheme_lit sc ++ post1 ->
        strlen pre <= strlen pre1) ->
    begins_with t (scheme_lit sc) ->
    stop_free t -> at_stop post ->
    scan_result sc post tokens ->
    scan_result sc (pre ++ t ++ post) (t :: tokens).

Definition occurrences_in (sc : scheme) (tokens : list string) : nat :=
  list_sum (map (fun t => count_occurrences t (scheme_lit sc)) tokens).

(** A token as C10 describes it. *)
Definition well_formed_url (t : string) : Prop :=
  (begins_with t "http://" \/ begins_with t "https://"
   \/ begins_with t "blob:") /\
  forall c, char_in c t ->
    isspace c = false /\ c <> dquote /\ c <> squote
    /\ c <> "<"%char /\ c <> ">"%char.

(** The flags of the specification: those of [valid_flags] and the three
    that [main] handles before it looks for unknown flags. *)
Definition recognized_flags : list string :=
  (valid_flags ++ ["--night-ops"; "-sd"; "-n"])%list.

(** [args1] is [args] without its first [-sd] and the tokens of the
    duration of that [-sd], which are the tokens after it up to the next
    one that begins with a dash; a later [-sd] stays. *)
Definition without_first_sd (args args1 : list string) : Prop :=
  (~ In "-sd" args /\ args1 = args) \/
  exists pre run after,
    args = (pre ++ "-sd" :: run ++ after)%list /\
    ~ In "-sd" pre /\
    Forall (fun a => starts_dash a = false) run /\
    match after with
    | [] => True
    | a :: _ => starts_dash a = true
    end /\
    args1 = (pre ++ after)%list.

(** [args2] is what the night-ops checks leave of [args]: the first [-sd]
    with its duration and every [--night-ops] are taken out. *)
Definition left_by_night_ops_checks (args args2 : list string) : Prop :=
  exists args1,
    without_first_sd args args1 /\
    args2 = filter (fun a => negb (streq a "--night-ops")) args1.

(** The three ways in which [-sd] without [--night-ops] is turned down:
    the duration is missing, is not valid, or is valid. *)
Definition sd_rejection (r : rejection) : Prop :=
  r = SdNeedsDuration \/ (exists durbuf, r = SdInvalid durbuf)
  \/ r = SdWithoutNightOps.

(** A small file system for the examples: the paths that exist, each with
    the content of the file, or [None] for a directory. *)
Module MemFs.

Definition t : Type := list (string * option string).

Fixpoint lookup (path : string) (m : t) : option (option string) :=
  match m with
  | [] => None
  | (p, node) :: rest => if streq p path then Some node else lookup path rest
  end.

Definition delete (path : string) (m : t) : t :=
  filter (fun e => negb (streq (fst e) path)) m.

(** Something lies under the directory [path]. *)
Definition occupied (path : string) (m : t) : bool :=
  existsb (fun e => has_prefix (fst e) (path ++ "/")) m.

Definition remove_dir (m : t) (path : string) : option t :=
  match lookup path m with
  | Some None => if occupied path m then None else Some (delete path m)
  | _ => None
  end.

Definition remove_path (m : t) (path : string) : option t :=
  match lookup path m with
  | Some (Some _) => Some (delete path m)
  | Some None => remove_dir m path
  | None => None
  end.

Definition write (m : t) (path content : string) : option t :=
  match lookup path m with
  | Some None => None
  | _ => Some ((path, Some content) :: delete path m)
  end.

Definition is_dir (m : t) (path : string) : bool :=
  match lookup path m with
  | Some None => true
  | _ => false
  end.

(** The same page at every URL. *)
Definition os (page : string) : OS t :=
  {| fetch_html := fun _ => Html page;
     is_directory := is_dir;
     rmdir := remove_dir;
     remove := remove_path;
     write_file := write |}.

Definition disk : t :=
  [("/opt/kno", None); ("/opt/kno/kno-url", Some "ELF");
   ("/opt/kno/.kno-url", None)].

End MemFs.

Definition is_output (e : event) : Prop :=
  match e with
  | Out _ => True
  | _ => False
  end.

Definition initial_world (input : string) : World MemFs.t :=
  {| stdin := input; fs := MemFs.disk; trace := [] |}.

(** No character of [t] is white space. *)
Definition space_free (t : string) : Prop :=
  forall c, char_in c t -> isspace c = false.

(** The seconds that a unit letter stands for. *)
Definition unit_seconds (unit : ascii) : Z :=
  if Ascii.eqb unit "h" then 3600%Z
  else if Ascii.eqb unit "m" then 60%Z else 1%Z.

Definition is_unit (unit : ascii) : bool :=
  Ascii.eqb unit "h" || Ascii.eqb unit "m" || Ascii.eqb unit "s".

(** A duration written as parts, each a number and a unit letter. *)
Fixpoint render_parts (parts : list (string * ascii)) : string :=
  match parts with
  | [] => EmptyString
  | (digits, unit) :: rest => digits ++ String unit (render_parts rest)
  end.

Fixpoint parts_seconds (parts : list (string * ascii)) : Z :=
  match parts with
  | [] => 0%Z
  | (digits, unit) :: rest =>
      (decimal digits 0 * unit_seconds unit + parts_seconds rest)%Z
  end.

Definition good_part (part : string * ascii) : Prop :=
  fst part <> "" /\ all_digits (fst part) = true
  /\ is_unit (snd part) = true.

(** [u] passes the filters and its category is [name]. *)
Definition kept_as (f : ScrapeFlags) (name u : string) : bool :=
  passes_filters f u && streq (categorize_url u) name.

(** A search term as the argument loop stores it. *)
Definition good_term (t : string) : Prop := t <> "" /\ ~ char_in "," t.

(** The six lists as filters of the extracted URLs. *)
Definition buckets_of (f : ScrapeFlags) (urls : list string) : Buckets :=
  {| cat_scripts := filter (kept_as f "SCRIPTS") urls;
     cat_media := filter (kept_as f "MEDIA") urls;
     cat_api := filter (kept_as f "API / ENDPOINTS") urls;
     cat_docs := filter (kept_as f "DOCUMENTS / CONFIG") urls;
     cat_html_list := filter (kept_as f "HTML / FRAMEWORK") urls;
     cat_other := filter (kept_as f "OTHER") urls |}.

(** [u] does not come after [v] in the order of [cmp_uwe]. *)
Definition uwe_le (u v : string) : Prop := cmp_uwe u v <> Gt.

(** * Properties *)

(** ** Strings *)

Lemma append_assoc s t u : (s ++ t) ++ u = s ++ t ++ u.
Proof. induction s as [|c s IH]; cbn; [reflexivity | now rewrite IH]. Qed.

Lemma strlen_append s t : strlen (s ++ t) = strlen s + strlen t.
Proof.
  unfold strlen; induction s as [|c s IH]; simpl; [reflexivity | now rewrite IH].
Qed.

Lemma has_prefix_append lit r : has_prefix (lit ++ r) lit = true.
Proof.
  induction lit as [|c lit IH]; cbn; [reflexivity|].
  now rewrite Ascii.eqb_refl, IH.
Qed.

Lemma has_prefix_split s lit :
  has_prefix s lit = true -> exists r, s = lit ++ r.
Proof.
  revert s; induction lit as [|a lit IH]; intros s; cbn.
  - intros _; now exists s.
  - destruct s as [|b s]; [discriminate|].
    intros E; apply andb_prop in E; destruct E as [E1 E2].
    apply Ascii.eqb_eq in E1; subst b.
    destruct (IH _ E2) as [r ->]. now exists r.
Qed.

(** [strstr] finds every occurrence there is. *)
Lemma strstr_finds pre lit post :
  exists r, strstr (pre ++ lit ++ post) lit = Some r.
Proof.
  induction pre as [|c pre IH]; cbn [append].
  - exists (lit ++ post).
    destruct lit; cbn [strstr append]; [destruct post; reflexivity|].
    pose proof (has_prefix_append (String a lit) post) as E.
    cbn [append] in E. now rewrite E.
  - cbn [strstr]. destruct (has_prefix _ lit); [eauto | exact IH].
Qed.

(** What [strstr] returns is a suffix that begins with the needle. *)
Lemma strstr_suffix h n r :
  strstr h n = Some r -> exists pre, h = pre ++ r /\ has_prefix r n = true.
Proof.
  induction h as [|c h IH]; cbn [strstr].
  - destruct (has_prefix "" n) eqn:E; [|discriminate].
    intros [= <-]; now exists "".
  - destruct (has_prefix (String c h) n) eqn:E.
    + intros [= <-]; now exists "".
    + intros Hr; destruct (IH Hr) as (pre & -> & Hp).
      now exists (String c pre).
Qed.

(** ** URL normalization *)

Lemma normalize_url_https u :
  normalize_url ("https://" ++ u) = Some ("https://" ++ u).
Proof. reflexivity. Qed.

(** C9: normalizing a non-empty token a second time changes nothing. *)
Theorem normalize_url_idempotent (u : string) :
  u <> "" ->
  exists v, normalize_url u = Some v /\ normalize_url v = Some v.
Proof.
  intros Hu. destruct u as [|c u]; [congruence|].
  unfold normalize_url at 1.
  destruct (has_prefix (String c u) "http://" || has_prefix (String c u) "https://")
    eqn:Hs.
  - exists (String c u); split; [reflexivity|].
    unfold normalize_url; now rewrite Hs.
  - destruct (has_prefix (String c u) "www.") eqn:Hw.
    + eexists; split; [reflexivity|]. apply normalize_url_https.
    + destruct (strchr (String c u) ".") eqn:Hd;
        [eexists; split; [reflexivity|]; apply normalize_url_https|].
      destruct (strchr (String c u) ":") eqn:Hc;
        [eexists; split; [reflexivity|]; apply normalize_url_https|].
      exists (String c u); split; [reflexivity|].
      unfold normalize_url; now rewrite Hs, Hw, Hd, Hc.
Qed.

Lemma normalize_url_idempotent_witness :
  "example.com" <> "" /\
  exists v, normalize_url "example.com" = Some v /\ normalize_url v = Some v.
Proof.
  split; [discriminate|].
  apply (normalize_url_idempotent "example.com"); discriminate.
Defined.

(** ** Duration parsing *)

(** C6: the durations of the specification: "90s" is 90 seconds, "1h30m"
    is 5400, the bare "2" is 2; "0s" and "abc" give -1, the value that
    stands for a rejection, and the [-sd] loop turns both down. *)
Theorem parse_duration_seconds_examples :
  parse_duration_seconds "90s" = 90%Z /\
  parse_duration_seconds "1h30m" = 5400%Z /\
  parse_duration_seconds "2" = 2%Z /\
  parse_duration_seconds "0s" = (-1)%Z /\
  parse_duration_seconds "abc" = (-1)%Z /\
  parse_sd ["-sd"; "0s"] = inl (SdInvalid "0s") /\
  parse_sd ["-sd"; "abc"] = inl (SdInvalid "abc").
Proof. repeat split; vm_compute; reflexivity. Qed.

(** ** Categorization *)

Lemma has_substr_contains url lit :
  contains url lit -> has_substr url lit = true.
Proof.
  intros (pre & post & ->). unfold has_substr.
  destruct (strstr_finds pre lit post) as [r ->]. reflexivity.
Qed.

Lemma contains_has_substr url lit :
  has_substr url lit = true -> contains url lit.
Proof.
  unfold has_substr. destruct (strstr url lit) as [r|] eqn:E; [|discriminate].
  intros _. destruct (strstr_suffix _ _ _ E) as (pre & -> & Hp).
  destruct (has_prefix_split _ _ Hp) as [post ->]. now exists pre, post.
Qed.

Lemma map_string_strlen f s : strlen (map_string f s) = strlen s.
Proof.
  unfold strlen; induction s as [|c s IH]; simpl; [reflexivity | now rewrite IH].
Qed.

Lemma match_ci_at_append mid post n :
  map_string tolower mid = map_string tolower n ->
  match_ci_at (mid ++ post) n = true.
Proof.
  revert mid; induction n as [|c n IH]; intros mid E; [reflexivity|].
  destruct mid as [|d mid]; [discriminate|].
  cbn in E; injection E as E1 E2.
  cbn [append match_ci_at]. rewrite E1, Ascii.eqb_refl. now apply IH.
Qed.

Lemma strcasestr_from_finds pre mid post n :
  map_string tolower mid = map_string tolower n ->
  strcasestr_from (pre ++ mid ++ post) n = true.
Proof.
  intros E. induction pre as [|c pre IH].
  - cbn [append].
    assert (Hm : match_ci_at (mid ++ post) n = true)
      by now apply match_ci_at_append.
    assert (Hl : (strlen n <=? strlen (mid ++ post))%nat = true).
    { apply Nat.leb_le. rewrite strlen_append.
      rewrite <- (map_string_strlen tolower n), <- E, map_string_strlen. lia. }
    destruct (mid ++ post); cbn [strcasestr_from]; now rewrite Hl, Hm.
  - cbn [append strcasestr_from]. rewrite IH.
    now destruct (_ && _).
Qed.

Lemma strcasestr_bool_contains_ci url c lit :
  contains_ci url (String c lit) -> strcasestr_bool url (String c lit) = true.
Proof.
  intros (pre & mid & post & -> & E). unfold strcasestr_bool.
  assert (Hl : (strlen (pre ++ mid ++ post) <? strlen (String c lit))%nat = false).
  { apply Nat.ltb_ge. rewrite !strlen_append.
    rewrite <- (map_string_strlen tolower (String c lit)), <- E,
      map_string_strlen. lia. }
  rewrite Hl. now apply strcasestr_from_finds.
Qed.

(** The six labels are six categories. *)
Lemma names_distinct : NoDup names.
Proof.
  unfold names.
  repeat (constructor; [cbn; intuition discriminate|]). constructor.
Qed.

Lemma categorize_url_in_names url : In (categorize_url url) names.
Proof.
  unfold categorize_url, names.
  repeat match goal with
         | |- In (if ?b then _ else _) _ => destruct b
         end; cbn; tauto.
Qed.

Lemma categorize_url_api url :
  contains url "/api/" \/ contains_ci url "graphql" ->
  categorize_url url = "API / ENDPOINTS".
Proof.
  intros Hapi. unfold categorize_url.
  assert (E : has_substr url "/api/" || strcasestr_bool url "graphql" = true).
  { apply orb_true_iff. destruct Hapi as [Ha|Hg].
    - left; now apply has_substr_contains.
    - right; now apply strcasestr_bool_contains_ci. }
  now rewrite E.
Qed.

(** C7: [categorize_url] is a function from URLs to the six categories
    (one label for every URL, and the six labels are distinct), and a URL
    that contains "/api/", or "graphql" in any case, is API / ENDPOINTS
    whatever its extension. *)
Theorem categorize_url_total_api_first (url : string) :
  (In (categorize_url url) names /\ NoDup names) /\
  (contains url "/api/" \/ contains_ci url "graphql" ->
   categorize_url url = "API / ENDPOINTS").
Proof.
  split; [split|].
  - apply categorize_url_in_names.
  - apply names_distinct.
  - apply categorize_url_api.
Qed.

Lemma categorize_url_total_api_first_witness :
  contains "https://example.com/api/x.json" "/api/" /\
  categorize_url "https://example.com/api/x.json" = "API / ENDPOINTS" /\
  get_ext "https://example.com/api/x.json" = ".json".
Proof.
  assert (Hc : contains "https://example.com/api/x.json" "/api/")
    by (exists "https://example.com", "x.json"; reflexivity).
  split; [exact Hc|]. split; [|reflexivity].
  apply (proj2 (categorize_url_total_api_first _)). left; exact Hc.
Defined.

Lemma strrchr_append pre s c r :
  strrchr s c = Some r -> strrchr (pre ++ s) c = Some r.
Proof.
  intros E; induction pre as [|a pre IH]; cbn [append strrchr];
    [exact E | now rewrite IH].
Qed.

Lemma get_ext_js_suffix pre stem :
  get_ext (pre ++ stem ++ ".js") = ".js".
Proof.
  unfold get_ext.
  rewrite (strrchr_append pre (stem ++ ".js") "." ".js"); [reflexivity|].
  apply (strrchr_append stem ".js" "." ".js"); reflexivity.
Qed.

(** Where the two substrings do decide: the extension is in none of the
    tables. *)
Example categorize_url_examples :
  map categorize_url
      ["https://cdn.example.com/app.bundle.js?v=3";
       "https://cdn.example.com/0.chunk.js.map";
       "https://cdn.example.com/app.bundle.js";
       "https://example.com/api/x.json";
       "https://example.com/GraphQL/logo.PNG";
       "https://example.com/logo.PNG";
       "https://example.com/index.html";
       "https://example.com/v1.2/readme"]
  = ["HTML / FRAMEWORK"; "HTML / FRAMEWORK"; "SCRIPTS"; "API / ENDPOINTS";
     "API / ENDPOINTS"; "MEDIA"; "HTML / FRAMEWORK"; "OTHER"].
Proof. reflexivity. Qed.

(** C3 fails on the source: the test for ".js" comes first, so a URL that
    ends in ".bundle.js" or ".chunk.js" and is not an API URL is put
    under SCRIPTS, and the test for the two substrings is never reached. *)
Theorem categorize_url_bundle_suffix_scripts (pre : string) :
  has_substr (pre ++ ".bundle.js") "/api/" = false ->
  strcasestr_bool (pre ++ ".bundle.js") "graphql" = false ->
  has_substr (pre ++ ".chunk.js") "/api/" = false ->
  strcasestr_bool (pre ++ ".chunk.js") "graphql" = false ->
  categorize_url (pre ++ ".bundle.js") = "SCRIPTS" /\
  categorize_url (pre ++ ".chunk.js") = "SCRIPTS".
Proof.
  intros Ha Hg Ha' Hg'. unfold categorize_url.
  rewrite Ha, Hg, Ha', Hg'.
  change (pre ++ ".bundle.js") with (pre ++ ".bundle" ++ ".js").
  change (pre ++ ".chunk.js") with (pre ++ ".chunk" ++ ".js").
  rewrite !get_ext_js_suffix. split; reflexivity.
Qed.

Lemma categorize_url_bundle_suffix_scripts_witness :
  contains "https://cdn.example.com/app.bundle.js" ".bundle.js" /\
  categorize_url "https://cdn.example.com/app.bundle.js" = "SCRIPTS" /\
  categorize_url "https://cdn.example.com/app.chunk.js" = "SCRIPTS".
Proof.
  split; [exists "https://cdn.example.com/app", ""; reflexivity|].
  apply (categorize_url_bundle_suffix_scripts "https://cdn.example.com/app");
    reflexivity.
Defined.

(** ** The filter of [run_html_mode] *)

Lemma fill_buckets_none f all_urls :
  (forall u, In u all_urls -> passes_filters f u = false) ->
  fill_buckets f all_urls = empty_buckets.
Proof.
  unfold fill_buckets. generalize empty_buckets as b.
  induction all_urls as [|u l IH]; intros b Hall; [reflexivity|].
  cbn [fold_left]. unfold filter_step at 2.
  rewrite (Hall u (or_introl eq_refl)).
  apply IH; intros v Hv; apply Hall; now right.
Qed.

Lemma passes_filters_exclusion f u :
  have_cat_flags f = true -> no_media_mode f = true ->
  passes_filters f u = false.
Proof.
  intros Hc Hn. unfold passes_filters. rewrite Hc, Hn.
  destruct (matches_search f u); [|reflexivity].
  now destruct (flagged f (categorize_url u)).
Qed.

(** C1 fails on the source: with a category flag and [--no-media] both
    set, the first test drops the URLs whose category is not flagged and
    the second drops those whose category is: no URL is kept, whatever
    its category. *)
Theorem exclusion_with_category_flags_keeps_nothing
  (f : ScrapeFlags) (all_urls : list string) :
  have_cat_flags f = true -> no_media_mode f = true ->
  kept_urls f all_urls = [].
Proof.
  intros Hc Hn. unfold kept_urls.
  rewrite fill_buckets_none; [reflexivity|].
  intros u _; now apply passes_filters_exclusion.
Qed.

Lemma exclusion_with_category_flags_keeps_nothing_witness :
  let f := parse_flags ["-s"; "--no-media"] no_flags in
  categorize_url "http://a.example/y.png" = "MEDIA" /\
  flagged f "MEDIA" = false /\
  kept_urls f ["http://a.example/x.js"; "http://a.example/y.png"] = [].
Proof.
  split; [reflexivity|]. split; [reflexivity|].
  apply (exclusion_with_category_flags_keeps_nothing
           (parse_flags ["-s"; "--no-media"] no_flags)); reflexivity.
Defined.

(** ** URL extraction *)

Lemma url_span_split q :
  q = fst (url_span q) ++ snd (url_span q) /\
  stop_free (fst (url_span q)) /\ at_stop (snd (url_span q)).
Proof.
  induction q as [|c q (IH1 & IH2 & IH3)]; cbn [url_span].
  - repeat split. intros c [].
  - destruct (url_stop c) eqn:Hc; cbn [fst snd].
    + repeat split; [intros d [] | exact Hc].
    + destruct (url_span q) as [t r]; cbn [fst snd append] in *.
      repeat split; [now rewrite <- IH1 | | exact IH3].
      intros d [<-|Hd]; [exact Hc | now apply IH2].
Qed.

Lemma scheme_lit_stop_free sc : stop_free (scheme_lit sc).
Proof.
  destruct sc; intros c Hc; cbn in Hc;
    repeat (destruct Hc as [<-|Hc]; [reflexivity|]); destruct Hc.
Qed.

Lemma scheme_lit_nonempty sc : has_prefix "" (scheme_lit sc) = false.
Proof. now destruct sc. Qed.

(** A literal without stop characters that begins [tok ++ post] begins
    [tok] already, when [tok] ends where the token ends. *)
Lemma has_prefix_token lit tok post :
  stop_free lit -> at_stop post ->
  has_prefix (tok ++ post) lit = has_prefix tok lit.
Proof.
  revert tok; induction lit as [|a lit IH]; intros tok Hl Hp; [reflexivity|].
  assert (Ha : url_stop a = false) by (apply Hl; now left).
  assert (Hl' : stop_free lit) by (intros c Hc; apply Hl; now right).
  destruct tok as [|c tok]; cbn [append has_prefix].
  - destruct post as [|s post]; [reflexivity|]. cbn in Hp.
    destruct (Ascii.eqb s a) eqn:E; [|reflexivity].
    apply Ascii.eqb_eq in E; congruence.
  - now rewrite IH.
Qed.

Lemma has_prefix_url_span start lit :
  stop_free lit -> has_prefix start lit = true ->
  has_prefix (fst (url_span start)) lit = true.
Proof.
  intros Hl Hp. destruct (url_span_split start) as (E & _ & Hs).
  rewrite E in Hp. now rewrite has_prefix_token in Hp.
Qed.

Lemma scan_scheme_tokens sc p : Forall (token_of sc p) (scan_scheme sc p).
Proof.
  funelim (scan_scheme sc p); [|constructor].
  destruct (strstr_suffix _ _ _ e) as (pre & -> & Hp).
  destruct (url_span_split start) as (E & Hfree & Hstop).
  constructor.
  - exists pre, (snd (url_span start)). rewrite <- E.
    repeat split; auto.
    apply has_prefix_url_span; [apply scheme_lit_stop_free | exact Hp].
  - match goal with
    | IH : Forall _ (scan_scheme _ _) |- _ =>
        refine (Forall_impl _ _ IH)
    end.
    intros t (pre' & post' & E' & Ht).
    exists (pre ++ fst (url_span start) ++ pre'), post'. split; [|exact Ht].
    rewrite E at 1. rewrite E'. now rewrite !append_assoc.
Qed.

Lemma count_occurrences_strstr_none p lit :
  strstr p lit = None -> count_occurrences p lit = 0.
Proof.
  induction p as [|c p IH]; cbn [strstr count_occurrences];
    destruct (has_prefix _ lit); try discriminate; auto.
Qed.

Lemma count_occurrences_strstr p lit start :
  strstr p lit = Some start ->
  count_occurrences p lit = count_occurrences start lit.
Proof.
  induction p as [|c p IH]; cbn [strstr].
  - destruct (has_prefix "" lit); [now intros [= <-] | discriminate].
  - destruct (has_prefix (String c p) lit) eqn:E; [now intros [= <-]|].
    intros Hs. cbn [count_occurrences]. rewrite E. now apply IH.
Qed.

Lemma count_occurrences_token lit tok post :
  stop_free lit -> has_prefix "" lit = false ->
  stop_free tok -> at_stop post ->
  count_occurrences (tok ++ post) lit
  = count_occurrences tok lit + count_occurrences post lit.
Proof.
  intros Hl Hne Ht Hp. induction tok as [|c tok IH].
  - cbn [append count_occurrences]. now rewrite Hne.
  - pose proof (has_prefix_token lit (String c tok) post Hl Hp) as Hh.
    cbn [append] in Hh. cbn [append count_occurrences].
    rewrite Hh, IH; [lia|].
    intros d Hd; apply Ht; now right.
Qed.

(** Every occurrence of the literal lies in exactly one token. *)
Lemma scan_scheme_occurrences sc p :
  count_occurrences p (scheme_lit sc) = occurrences_in sc (scan_scheme sc p).
Proof.
  funelim (scan_scheme sc p).
  - rewrite (count_occurrences_strstr _ _ _ e).
    destruct (url_span_split start) as (E & Hfree & Hstop).
    rewrite E at 1.
    rewrite count_occurrences_token;
      auto using scheme_lit_stop_free, scheme_lit_nonempty.
    unfold occurrences_in in *; cbn [map].
    change (list_sum (?x :: ?r)) with (x + list_sum r).
    match goal with IH : count_occurrences _ _ = list_sum _ |- _ => now rewrite IH end.
  - now apply count_occurrences_strstr_none.
Qed.

Lemma token_has_occurrence sc text t :
  token_of sc text t -> 1 <= count_occurrences t (scheme_lit sc).
Proof.
  intros (_ & _ & _ & Hp & _).
  destruct t; cbn [count_occurrences]; rewrite Hp; lia.
Qed.

Lemma length_le_occurrences_in sc text tokens :
  Forall (token_of sc text) tokens ->
  length tokens <= occurrences_in sc tokens.
Proof.
  unfold occurrences_in.
  induction 1 as [|t l Ht _ IH]; cbn [length map]; [cbn; lia|].
  apply token_has_occurrence in Ht.
  change (list_sum (?x :: ?r)) with (x + list_sum r). lia.
Qed.

Lemma length_eq_occurrences_in sc tokens :
  Forall (fun t => count_occurrences t (scheme_lit sc) = 1) tokens ->
  length tokens = occurrences_in sc tokens.
Proof.
  unfold occurrences_in.
  induction 1 as [|t l Ht _ IH]; cbn [length map]; [reflexivity|].
  change (list_sum (?x :: ?r)) with (x + list_sum r). lia.
Qed.

(** The extractor is the three passes, one after the other. *)
Lemma extract_urls_from_html_passes html :
  extract_urls_from_html html []
  = (scan_scheme Http html ++ scan_scheme Https html
       ++ scan_scheme Blob html)%list.
Proof. reflexivity. Qed.

Lemma scan_scheme_nil sc p :
  scan_scheme sc p = [] <-> strstr p (scheme_lit sc) = None.
Proof.
  funelim (scan_scheme sc p).
  - split; [discriminate | congruence].
  - tauto.
Qed.

Lemma strstr_none_contains p lit : strstr p lit = None <-> ~ contains p lit.
Proof.
  split.
  - intros E Hc. apply has_substr_contains in Hc. unfold has_substr in Hc.
    rewrite E in Hc. discriminate.
  - intros Hn. destruct (strstr p lit) eqn:E; [|reflexivity].
    elim Hn. apply contains_has_substr. unfold has_substr. now rewrite E.
Qed.

Lemma scan_scheme_body sc p :
  scan_scheme sc p =
  match strstr p (scheme_lit sc) with
  | None => []
  | Some start => fst (url_span start) :: scan_scheme sc (snd (url_span start))
  end.
Proof.
  funelim (scan_scheme sc p);
    match goal with E : strstr _ _ = _ |- _ => now rewrite E end.
Qed.

(** What [strstr] returns is the first occurrence of the needle. *)
Lemma strstr_first_occurrence h n r :
  strstr h n = Some r ->
  exists pre,
    h = pre ++ r /\ has_prefix r n = true /\
    forall pre1 post1, h = pre1 ++ n ++ post1 -> strlen pre <= strlen pre1.
Proof.
  induction h as [|c h IH]; cbn [strstr].
  - destruct (has_prefix "" n) eqn:E; [|discriminate].
    intros [= <-]. exists "". repeat split; auto. intros; cbn; lia.
  - destruct (has_prefix (String c h) n) eqn:E.
    + intros [= <-]. exists "". repeat split; auto. intros; cbn; lia.
    + intros Hr. destruct (IH Hr) as (pre & -> & Hp & Hfirst).
      exists (String c pre). repeat split; auto.
      intros pre1 post1 E1. destruct pre1 as [|c1 pre1].
      * cbn [append] in E1. rewrite E1, has_prefix_append in E. discriminate.
      * cbn [append] in E1. injection E1 as _ E1.
        specialize (Hfirst _ _ E1). unfold strlen in *; simpl; lia.
Qed.

Lemma strstr_at_first_occurrence pre r n :
  has_prefix r n = true ->
  (forall pre1 post1, pre ++ r = pre1 ++ n ++ post1 ->
                      strlen pre <= strlen pre1) ->
  strstr (pre ++ r) n = Some r.
Proof.
  intros Hp. induction pre as [|c pre IH]; intros Hfirst; cbn [append].
  - destruct r; cbn [strstr]; now rewrite Hp.
  - cbn [strstr]. destruct (has_prefix (String c (pre ++ r)) n) eqn:E.
    + apply has_prefix_split in E. destruct E as [post1 E].
      specialize (Hfirst "" post1 E). unfold strlen in Hfirst. simpl in Hfirst.
      lia.
    + apply IH. intros pre1 post1 E1.
      specialize (Hfirst (String c pre1) post1).
      cbn [append] in Hfirst. rewrite E1 in Hfirst. specialize (Hfirst eq_refl).
      unfold strlen in *; simpl in *; lia.
Qed.

Lemma url_span_token t post :
  stop_free t -> at_stop post -> url_span (t ++ post) = (t, post).
Proof.
  intros Hf Hs. induction t as [|c t IH]; cbn [append].
  - destruct post as [|d post]; [reflexivity|]. cbn [url_span].
    cbn [at_stop] in Hs. now rewrite Hs.
  - cbn [url_span]. rewrite (Hf c (or_introl eq_refl)).
    rewrite IH; [reflexivity|]. intros d Hd. apply Hf. now right.
Qed.

(** The pass returns the tokens of the scan. *)
Lemma scan_scheme_result sc p : scan_result sc p (scan_scheme sc p).
Proof.
  funelim (scan_scheme sc p).
  - match goal with E : strstr _ _ = Some _ |- _ =>
      destruct (strstr_first_occurrence _ _ _ E) as (pre & -> & Hp & Hfirst)
    end.
    destruct (url_span_split start) as (E & Hfree & Hstop).
    pose proof (has_prefix_url_span start _ (scheme_lit_stop_free sc) Hp)
      as Ht.
    clear Heqcall H0. destruct (url_span start) as [t post].
    cbn [fst snd] in *. subst start.
    apply scan_first_token; auto.
    unfold begins_with. now apply has_prefix_split.
  - constructor. now apply strstr_none_contains.
Qed.

(** And the scan has no other tokens. *)
Lemma scan_result_unique sc text tokens :
  scan_result sc text tokens -> tokens = scan_scheme sc text.
Proof.
  induction 1 as [text Hnone|pre t post tokens Hfirst Hb Hfree Hstop _ IH].
  - symmetry. apply scan_scheme_nil. now apply strstr_none_contains.
  - rewrite scan_scheme_body.
    assert (Hp : has_prefix (t ++ post) (scheme_lit sc) = true).
    { destruct Hb as [r ->]. rewrite append_assoc. apply has_prefix_append. }
    rewrite (strstr_at_first_occurrence pre (t ++ post) _ Hp Hfirst).
    rewrite (url_span_token t post Hfree Hstop). cbn [fst snd]. now rewrite IH.
Qed.

(** C4, as the source has it: a pass returns the tokens of a scan from
    left to right, and no others: the token at the first occurrence of
    its literal, which ends at the first white space, quote or angle
    bracket after the literal or at the end of the text, and then the
    tokens of the same scan of the text after that token; an occurrence
    inside a token gives no token of its own.  The N occurrences are
    those inside the returned tokens, counted token by token, so there
    are at most N tokens, and exactly N when no token holds a second
    occurrence. *)
Theorem scan_scheme_tokens_cover_occurrences (sc : scheme) (text : string) :
  scan_result sc text (scan_scheme sc text) /\
  (forall tokens, scan_result sc text tokens -> tokens = scan_scheme sc text) /\
  count_occurrences text (scheme_lit sc)
  = occurrences_in sc (scan_scheme sc text) /\
  length (scan_scheme sc text) <= count_occurrences text (scheme_lit sc) /\
  (Forall (fun t => count_occurrences t (scheme_lit sc) = 1)
          (scan_scheme sc text) ->
   length (scan_scheme sc text) = count_occurrences text (scheme_lit sc)) /\
  Forall (token_of sc text) (scan_scheme sc text).
Proof.
  pose proof (scan_scheme_occurrences sc text) as Hocc.
  pose proof (scan_scheme_tokens sc text) as Htok.
  split; [apply scan_scheme_result|].
  split; [intros tokens; apply scan_result_unique|].
  repeat split; auto.
  - rewrite Hocc. eapply length_le_occurrences_in; eassumption.
  - intros Hone. rewrite Hocc. now apply length_eq_occurrences_in.
Qed.

Lemma scan_scheme_tokens_cover_occurrences_witness :
  let text := "see http://a.example/x and <http://b.example/y>" in
  scan_result Http text ["http://a.example/x"; "http://b.example/y"] /\
  Forall (fun t => count_occurrences t "http://" = 1) (scan_scheme Http text) /\
  length (scan_scheme Http text) = count_occurrences text "http://" /\
  scan_scheme Http text = ["http://a.example/x"; "http://b.example/y"].
Proof.
  assert (Hone : Forall (fun t => count_occurrences t "http://" = 1)
                   (scan_scheme Http
                      "see http://a.example/x and <http://b.example/y>"))
    by (vm_compute; repeat constructor).
  assert (Hres : scan_result Http
                   "see http://a.example/x and <http://b.example/y>"
                   ["http://a.example/x"; "http://b.example/y"]).
  { apply (scan_first_token Http "see " "http://a.example/x"
             " and <http://b.example/y>" ["http://b.example/y"]).
    - intros [|c1 [|c2 [|c3 [|c4 pre1]]]] post1 E;
        try discriminate E; unfold strlen; simpl; lia.
    - now exists "a.example/x".
    - intros c Hc; cbn in Hc;
        repeat (destruct Hc as [<-|Hc]; [reflexivity|]); destruct Hc.
    - reflexivity.
    - apply (scan_first_token Http " and <" "http://b.example/y" ">" []).
      + intros [|c1 [|c2 [|c3 [|c4 [|c5 [|c6 pre1]]]]]] post1 E;
          try discriminate E; unfold strlen; simpl; lia.
      + now exists "b.example/y".
      + intros c Hc; cbn in Hc;
          repeat (destruct Hc as [<-|Hc]; [reflexivity|]); destruct Hc.
      + reflexivity.
      + apply scan_no_occurrence. now apply strstr_none_contains. }
  split; [exact Hres|]. split; [exact Hone|]. split.
  - apply (proj1 (proj2 (proj2 (proj2 (proj2
             (scan_scheme_tokens_cover_occurrences Http _)))))).
    exact Hone.
  - symmetry.
    apply (proj1 (proj2 (scan_scheme_tokens_cover_occurrences Http _))).
    exact Hres.
Defined.

(** C4 as it is stated fails: a text with two occurrences of "http://",
    the second inside the token of the first, gives one token. *)
Lemma scan_scheme_nested_occurrence :
  ~ (forall sc text,
        length (scan_scheme sc text)
        = count_occurrences text (scheme_lit sc)).
Proof.
  intros Hall.
  specialize (Hall Http "http://a.example/?next=http://b.example").
  vm_compute in Hall. discriminate.
Qed.

Lemma url_stop_false c :
  url_stop c = false ->
  isspace c = false /\ c <> dquote /\ c <> squote
  /\ c <> "<"%char /\ c <> ">"%char.
Proof.
  unfold url_stop. intros E.
  do 4 (apply orb_false_elim in E; destruct E as [E ?]).
  repeat split; auto; now apply Ascii.eqb_neq.
Qed.

Lemma token_of_well_formed sc text t :
  token_of sc text t -> well_formed_url t.
Proof.
  intros (_ & _ & _ & Hp & Hfree & _). split.
  - apply has_prefix_split in Hp. destruct sc; cbn [scheme_lit] in Hp;
      unfold begins_with; tauto.
  - intros c Hc. apply url_stop_false. now apply Hfree.
Qed.

(** C10: every URL that the extractor returns begins with "http://",
    "https://" or "blob:" and holds no white space and none of the two
    quotes and the two angle brackets. *)
Theorem extract_urls_from_html_well_formed (html : string) :
  Forall well_formed_url (extract_urls_from_html html []).
Proof.
  unfold extract_urls_from_html. cbn [app].
  repeat (apply Forall_app; split);
    (eapply Forall_impl; [|apply scan_scheme_tokens]);
    intros t; apply token_of_well_formed.
Qed.

(** ** Command parsing *)

Example parse_line_examples :
  map parse_line
      ["example.com -zz"; "example.com -sd"; "example.com -sd abc";
       "example.com --night-ops -sd 1h 30m -s"; "example.com --night-ops";
       " --night-ops "; "-h"; "  "; "-u www.x.org -md -n";
       "x.org --night-ops -sd 5 -sd 6"; "-o http://x.org -s"]
  = [Rejected (UnknownFlag "-zz"); Rejected SdNeedsDuration;
     Rejected (SdInvalid "abc");
     Scrape "https://example.com" ["-s"] true 5400;
     Rejected NightOpsWithoutSd; NightOpsStandalone; Help;
     Rejected NoTokens; NetworkMode "https://www.x.org";
     Rejected (UnknownFlag "-sd"); Scrape "http://x.org" ["-s"] false (-1)].
Proof. vm_compute. reflexivity. Qed.

Lemma streq_eq a b : streq a b = true <-> a = b.
Proof. apply String.eqb_eq. Qed.

Lemma existsb_streq_In a l :
  existsb (fun x => streq x a) l = true <-> In a l.
Proof.
  rewrite existsb_exists. split.
  - intros (x & Hx & E). apply streq_eq in E. now subst.
  - intros Hin. exists a. split; [exact Hin | now apply streq_eq].
Qed.

Lemma known_flag_In a : known_flag a = true <-> In a valid_flags.
Proof.
  unfold known_flag. rewrite existsb_exists. split.
  - intros (x & Hx & E). apply streq_eq in E. now subst.
  - intros Hin. exists a. split; [exact Hin | now apply streq_eq].
Qed.

(** A line with a URL is neither the help request nor the lone
    [--night-ops]: it goes through [parse_command]. *)
Lemma parse_line_with_url raw url args :
  locate_url (split_tokens (chomp raw) 64) = (Some url, args) ->
  parse_line raw = parse_command (split_tokens (chomp raw) 64).
Proof.
  unfold parse_line. intros Hloc.
  destruct (chomp raw) as [|c line] eqn:Hc; [discriminate|].
  destruct (split_tokens (String c line) 64) as [|t [|t' l]] eqn:Ht;
    [discriminate | | reflexivity].
  destruct (streq t "-h") eqn:E1;
    [apply streq_eq in E1; subst; discriminate|].
  destruct (streq t "--help") eqn:E2;
    [apply streq_eq in E2; subst; discriminate|].
  destruct (streq t "--night-ops") eqn:E3;
    [apply streq_eq in E3; subst; discriminate|].
  reflexivity.
Qed.

Lemma split_at_sd_spec args :
  match split_at_sd args with
  | Some (before, rest) =>
      args = (before ++ "-sd" :: rest)%list /\ ~ In "-sd" before
  | None => ~ In "-sd" args
  end.
Proof.
  induction args as [|a args IH]; cbn [split_at_sd]; [tauto|].
  destruct (streq a "-sd") eqn:E.
  - apply streq_eq in E; subst. split; [reflexivity | tauto].
  - assert (a <> "-sd") by (intros ->; unfold streq in E;
                            now rewrite String.eqb_refl in E).
    destruct (split_at_sd args) as [[before rest]|].
    + destruct IH as [-> Hn]. split; [reflexivity|].
      intros [?|?]; [congruence | tauto].
    + intros [?|?]; [congruence | tauto].
Qed.

Lemma duration_tokens_spec args :
  args = (fst (duration_tokens args) ++ snd (duration_tokens args))%list /\
  Forall (fun a => starts_dash a = false) (fst (duration_tokens args)).
Proof.
  induction args as [|a args [IH1 IH2]]; cbn [duration_tokens].
  - split; [reflexivity | constructor].
  - destruct (starts_dash a) eqn:E; cbn [fst snd app].
    + split; [reflexivity | constructor].
    + destruct (duration_tokens args) as [run after]; cbn [fst snd app] in *.
      split; [now rewrite <- IH1 | now constructor].
Qed.

(** What [parse_sd] leaves of the arguments: all of them without the
    first [-sd] and the tokens of its duration. *)
Lemma parse_sd_args args sd_seconds args1 :
  parse_sd args = inr (sd_seconds, args1) ->
  (forall a, In a args1 -> In a args) /\
  (forall a, In a args -> starts_dash a = true -> a <> "-sd" -> In a args1).
Proof.
  unfold parse_sd. pose proof (split_at_sd_spec args) as Hs.
  destruct (split_at_sd args) as [[before rest]|]; [|now intros [= _ <-]].
  destruct Hs as [-> _].
  pose proof (duration_tokens_spec rest) as [Hr Hrun].
  destruct (duration_tokens rest) as [run after]; cbn [fst snd] in *.
  destruct (durbuf_of run) as [|d0 d]; [discriminate|].
  destruct (_ <=? 0)%Z; [discriminate|]. intros [= _ <-]. subst rest. split.
  - intros x Hx. apply in_app_or in Hx. apply in_or_app.
    destruct Hx as [Hx|Hx]; [now left|]. right; right. apply in_or_app; now right.
  - intros x Hx Hd Hne. apply in_app_or in Hx. apply in_or_app.
    destruct Hx as [Hx|[Hx|Hx]]; [now left | congruence |].
    apply in_app_or in Hx. destruct Hx as [Hx|Hx]; [|now right].
    rewrite Forall_forall in Hrun. specialize (Hrun x Hx). congruence.
Qed.

Lemma night_ops_checks_args args night_ops sd_seconds args2 :
  night_ops_checks args = inr (night_ops, sd_seconds, args2) ->
  (forall a, In a args2 -> In a args) /\
  (forall a, In a args -> starts_dash a = true ->
             a <> "-sd" -> a <> "--night-ops" -> In a args2).
Proof.
  unfold night_ops_checks.
  destruct (parse_sd args) as [r|[sd args1]] eqn:Hsd; [discriminate|].
  destruct (parse_sd_args _ _ _ Hsd) as [Hsub Hkeep].
  destruct (_ && negb _); [discriminate|].
  destruct (_ && (_ <? 0)%Z); [discriminate|].
  intros [= _ _ <-]. split.
  - intros a Ha. apply Hsub.
    destruct (existsb is_night_ops args); [|exact Ha].
    apply filter_In in Ha. tauto.
  - intros a Ha Hd Hsd' Hno. specialize (Hkeep a Ha Hd Hsd').
    destruct (existsb is_night_ops args); [|exact Hkeep].
    apply filter_In. split; [exact Hkeep|].
    unfold is_night_ops. destruct (streq a "--night-ops") eqn:E;
      [apply streq_eq in E; contradiction | reflexivity].
Qed.

(** The unknown-flag loop stops at the first argument that begins with a
    dash and is not in [valid_flags]. *)
Lemma first_unknown_flag_found args t :
  In t args -> starts_dash t = true -> ~ In t valid_flags ->
  exists pre flag post,
    args = (pre ++ flag :: post)%list /\
    (forall a, In a pre -> starts_dash a = true -> In a valid_flags) /\
    starts_dash flag = true /\ ~ In flag valid_flags /\
    first_unknown_flag args = Some flag.
Proof.
  intros Hin Hd Hun. induction args as [|a args IH]; [destruct Hin|].
  cbn [first_unknown_flag].
  destruct (starts_dash a) eqn:Ea; cbn [negb].
  - destruct (known_flag a) eqn:Ek.
    + apply known_flag_In in Ek.
      destruct Hin as [->|Hin]; [contradiction|].
      destruct (IH Hin) as (pre & flag & post & -> & Hpre & Hf).
      exists (a :: pre), flag, post. split; [reflexivity|]. split; [|exact Hf].
      intros b [<-|Hb] Hb'; auto.
    + exists [], a, args. repeat split; auto; [intros b []|].
      intros Hk. apply known_flag_In in Hk. congruence.
  - destruct Hin as [->|Hin]; [congruence|].
    destruct (IH Hin) as (pre & flag & post & -> & Hpre & Hf).
    exists (a :: pre), flag, post. split; [reflexivity|]. split; [|exact Hf].
    intros b [<-|Hb] Hb'; [congruence | auto].
Qed.

Lemma not_recognized t :
  ~ In t recognized_flags ->
  ~ In t valid_flags /\ t <> "--night-ops" /\ t <> "-sd" /\ t <> "-n".
Proof.
  unfold recognized_flags. intros Hn. repeat split.
  - intros Hv. apply Hn. apply in_or_app. now left.
  - intros ->. apply Hn. apply in_or_app. right. cbn. tauto.
  - intros ->. apply Hn. apply in_or_app. right. cbn. tauto.
  - intros ->. apply Hn. apply in_or_app. right. cbn. tauto.
Qed.

Lemma duration_tokens_after args :
  match snd (duration_tokens args) with
  | [] => True
  | a :: _ => starts_dash a = true
  end.
Proof.
  induction args as [|a args IH]; cbn [duration_tokens]; [exact I|].
  destruct (starts_dash a) eqn:E; cbn [snd]; [exact E|].
  now destruct (duration_tokens args) as [run after].
Qed.

Lemma parse_sd_without_first_sd args sd_seconds args1 :
  parse_sd args = inr (sd_seconds, args1) -> without_first_sd args args1.
Proof.
  unfold parse_sd, without_first_sd. pose proof (split_at_sd_spec args) as Hs.
  destruct (split_at_sd args) as [[before rest]|];
    [|intros [= _ <-]; now left].
  destruct Hs as [-> Hpre].
  pose proof (duration_tokens_spec rest) as [Hr Hrun].
  pose proof (duration_tokens_after rest) as Hafter.
  destruct (duration_tokens rest) as [run after]; cbn [fst snd] in *.
  destruct (durbuf_of run) as [|d0 d]; [discriminate|].
  destruct (_ <=? 0)%Z; [discriminate|]. intros [= _ <-]. right.
  exists before, run, after. now rewrite <- Hr.
Qed.

Lemma filter_night_ops_absent args :
  ~ In "--night-ops" args ->
  filter (fun a => negb (streq a "--night-ops")) args = args.
Proof.
  induction args as [|a args IH]; [reflexivity|]. intros Hn. cbn [filter].
  destruct (streq a "--night-ops") eqn:E.
  - apply streq_eq in E. elim Hn. now left.
  - cbn [negb]. rewrite IH; [reflexivity|]. intros Hin. apply Hn. now right.
Qed.

(** What the night-ops checks leave of the arguments when they pass. *)
Lemma night_ops_checks_left args night_ops sd_seconds args2 :
  night_ops_checks args = inr (night_ops, sd_seconds, args2) ->
  left_by_night_ops_checks args args2.
Proof.
  unfold night_ops_checks, left_by_night_ops_checks.
  destruct (parse_sd args) as [r|[sd args1]] eqn:Hsd; [discriminate|].
  destruct (parse_sd_args _ _ _ Hsd) as [Hsub _].
  apply parse_sd_without_first_sd in Hsd.
  destruct (_ && negb _); [discriminate|].
  destruct (_ && (_ <? 0)%Z); [discriminate|].
  intros [= _ _ <-]. exists args1. split; [exact Hsd|].
  destruct (existsb is_night_ops args) eqn:E; [reflexivity|].
  symmetry. apply filter_night_ops_absent. intros Hin.
  apply Hsub in Hin.
  assert (E' : existsb is_night_ops args = true).
  { apply existsb_exists. exists "--night-ops". now split. }
  congruence.
Qed.

(** C2, as the source has it: the night-ops checks come first, and their
    rejection is the one reported.  When they pass and no [-n] is among
    the flags, a flag that is not recognized makes the parser reject the
    line with the unknown-flag message.  The message names the first
    token that begins with a dash and is not one of the thirteen flags of
    [valid_flags], among the arguments that the night-ops checks leave:
    the flags without the first [-sd], the tokens of its duration and
    every [--night-ops].  The token named is a flag that is not
    recognized, or it is a second [-sd], which the checks leave in
    place. *)
Theorem unknown_flag_after_night_ops_checks (raw url : string)
  (args : list string) :
  locate_url (split_tokens (chomp raw) 64) = (Some url, args) ->
  (forall r, night_ops_checks args = inl r -> parse_line raw = Rejected r) /\
  (forall night_ops sd_seconds args2 t,
      night_ops_checks args = inr (night_ops, sd_seconds, args2) ->
      ~ In "-n" args ->
      In t args -> starts_dash t = true -> ~ In t recognized_flags ->
      left_by_night_ops_checks args args2 /\
      exists pre flag post,
        args2 = (pre ++ flag :: post)%list /\
        (forall a, In a pre -> starts_dash a = true -> In a valid_flags) /\
        starts_dash flag = true /\ ~ In flag valid_flags /\
        (flag = "-sd" \/ ~ In flag recognized_flags) /\
        parse_line raw = Rejected (UnknownFlag flag)).
Proof.
  intros Hloc. rewrite (parse_line_with_url _ _ _ Hloc).
  unfold parse_command. rewrite Hloc. split.
  - intros r ->. reflexivity.
  - intros night_ops sd_seconds args2 t Hchk Hn Hin Hd Hun.
    rewrite Hchk. destruct (night_ops_checks_args _ _ _ _ Hchk) as [Hsub Hkeep].
    pose proof (night_ops_checks_left _ _ _ _ Hchk) as Hleft.
    split; [exact Hleft|].
    destruct (not_recognized t Hun) as (Hv & Hno & Hsd & _).
    assert (Hn2 : existsb (fun a => streq a "-n") args2 = false).
    { destruct (existsb _ args2) eqn:E; [|reflexivity].
      apply existsb_streq_In in E. elim Hn. now apply Hsub. }
    rewrite Hn2.
    destruct (first_unknown_flag_found args2 t (Hkeep t Hin Hd Hsd Hno) Hd Hv)
      as (pre & flag & post & E & Hpre & Hfd & Hfv & Hfirst).
    exists pre, flag, post. rewrite Hfirst. repeat split; auto.
    destruct (String.string_dec flag "-sd") as [Esd|Esd]; [now left | right].
    assert (Hf2 : In flag args2)
      by (rewrite E; apply in_or_app; right; now left).
    unfold recognized_flags. intros Hrec. apply in_app_or in Hrec.
    destruct Hrec as [Hrec|[Hrec|[Hrec|[Hrec|[]]]]].
    + contradiction.
    + destruct Hleft as (args1 & _ & ->). apply filter_In in Hf2.
      destruct Hf2 as [_ Hf2]. subst flag. discriminate Hf2.
    + congruence.
    + subst flag. apply Hn. now apply Hsub.
Qed.

Lemma unknown_flag_after_night_ops_checks_witness :
  let raw := "example.com -s --night-ops -sd 90s -zz -q" in
  locate_url (split_tokens (chomp raw) 64)
  = (Some "https://example.com",
     ["-s"; "--night-ops"; "-sd"; "90s"; "-zz"; "-q"]) /\
  night_ops_checks ["-s"; "--night-ops"; "-sd"; "90s"; "-zz"; "-q"]
  = inr (true, 90%Z, ["-s"; "-zz"; "-q"]) /\
  left_by_night_ops_checks
    ["-s"; "--night-ops"; "-sd"; "90s"; "-zz"; "-q"] ["-s"; "-zz"; "-q"] /\
  exists pre flag post,
    ["-s"; "-zz"; "-q"] = (pre ++ flag :: post)%list /\
    (forall a, In a pre -> starts_dash a = true -> In a valid_flags) /\
    starts_dash flag = true /\ ~ In flag valid_flags /\
    (flag = "-sd" \/ ~ In flag recognized_flags) /\
    parse_line raw = Rejected (UnknownFlag flag).
Proof.
  split; [reflexivity|]. split; [reflexivity|].
  refine (proj2 (unknown_flag_after_night_ops_checks
                   "example.com -s --night-ops -sd 90s -zz -q"
                   "https://example.com"
                   ["-s"; "--night-ops"; "-sd"; "90s"; "-zz"; "-q"] eq_refl)
                true 90%Z ["-s"; "-zz"; "-q"] "-q" eq_refl _ _ eq_refl _).
  - cbn. intuition discriminate.
  - cbn. tauto.
  - cbn. intuition discriminate.
Defined.

(** A second [-sd] is not taken out, and it is not in [valid_flags]: the
    unknown-flag message names it, in front of the flag that is not
    recognized. *)
Example second_sd_is_named :
  parse_line "x.org --night-ops -sd 5 -sd 6 -zz"
  = Rejected (UnknownFlag "-sd").
Proof. reflexivity. Qed.

(** C2 as it is stated fails: on a line with an unknown flag and a [-sd]
    without [--night-ops], the rejection is the one of the night-ops
    checks, and the unknown flag is not named. *)
Lemma unknown_flag_not_checked_first :
  ~ (forall raw url args t,
        locate_url (split_tokens (chomp raw) 64) = (Some url, args) ->
        In t args -> starts_dash t = true -> ~ In t recognized_flags ->
        parse_line raw = Rejected (UnknownFlag t)).
Proof.
  intros Hall.
  specialize (Hall "example.com -zz -sd 90s" "https://example.com"
                   ["-zz"; "-sd"; "90s"] "-zz" eq_refl).
  assert (E : parse_line "example.com -zz -sd 90s"
              = Rejected SdWithoutNightOps) by reflexivity.
  rewrite E in Hall.
  discriminate Hall; cbn; [tauto | reflexivity | intuition discriminate].
Qed.

Lemma is_night_ops_absent args :
  ~ In "--night-ops" args -> existsb is_night_ops args = false.
Proof.
  intros Hn. destruct (existsb is_night_ops args) eqn:E; [|reflexivity].
  apply existsb_exists in E. destruct E as (x & Hx & E).
  apply streq_eq in E. subst. contradiction.
Qed.

Lemma night_ops_checks_sd_alone args :
  In "-sd" args -> ~ In "--night-ops" args ->
  exists r, night_ops_checks args = inl r /\ sd_rejection r.
Proof.
  intros Hsd Hno. unfold night_ops_checks, sd_rejection.
  rewrite (is_night_ops_absent _ Hno). unfold parse_sd.
  pose proof (split_at_sd_spec args) as Hs.
  destruct (split_at_sd args) as [[before rest]|]; [|contradiction].
  destruct (duration_tokens rest) as [run after].
  destruct (durbuf_of run) as [|c d] eqn:Hd; [eauto|].
  destruct (parse_duration_seconds (String c d) <=? 0)%Z eqn:Hle; [eauto 6|].
  apply Z.leb_gt in Hle.
  assert (E : (0 <=? parse_duration_seconds (String c d))%Z = true)
    by (apply Z.leb_le; lia).
  rewrite E. cbn. eauto.
Qed.

(** ** The session *)

Section SessionProperties.

Context {FS : Type} `{OS FS}.
Variable g_exe_path : option string.

(** C5, as the source has it: a line with a URL whose flags, the tokens
    after the URL, hold [-sd] and not [--night-ops] is turned down,
    whether the duration is missing, not valid or valid: the iteration
    prints the rejection and goes on to the next prompt, with no page
    fetched, nothing slept and the file system as it was. *)
Theorem sd_without_night_ops_rejected (w : World FS) (raw rest url : string)
  (args : list string) :
  fgets MAX_LINE (stdin w) = Some (raw, rest) ->
  locate_url (split_tokens (chomp raw) 64) = (Some url, args) ->
  In "-sd" args -> ~ In "--night-ops" args ->
  exists r,
    sd_rejection r /\
    parse_line raw = Rejected r /\
    main_iteration g_exe_path w
    = Continue
        {| stdin := rest; fs := fs w;
           trace := (trace w
                     ++ [Out "Main URL: ";
                         Out (rejection_message r
                              ++ String newline EmptyString)])%list |}.
Proof.
  intros Hget Hloc Hsd Hno.
  destruct (night_ops_checks_sd_alone args Hsd Hno) as (r & Hchk & Hr).
  assert (Hline : parse_line raw = Rejected r).
  { rewrite (parse_line_with_url _ _ _ Hloc).
    unfold parse_command. now rewrite Hloc, Hchk. }
  exists r. repeat split; auto.
  unfold main_iteration. cbn [log stdin]. rewrite Hget, Hline.
  cbn [dispatch]. unfold say, log. cbn [stdin fs trace].
  now rewrite <- app_assoc.
Qed.

(** C8: when the line is [--night-ops] alone and the answer cannot be
    read, or does not begin with y or Y, the iteration leaves the file
    system as it was, prints and does nothing else, and the loop goes on
    to the next prompt. *)
Theorem standalone_night_ops_declined (w : World FS) (raw rest : string) :
  fgets MAX_LINE (stdin w) = Some (raw, rest) ->
  split_tokens (chomp raw) 64 = ["--night-ops"] ->
  (forall ans rest',
      fgets 16 rest = Some (ans, rest') ->
      ~ begins_with ans "y" /\ ~ begins_with ans "Y") ->
  exists w' printed,
    main_iteration g_exe_path w = Continue w' /\
    fs w' = fs w /\
    trace w' = (trace w ++ printed)%list /\ Forall is_output printed.
Proof.
  intros Hget Htok Hans.
  assert (Hline : parse_line raw = NightOpsStandalone).
  { unfold parse_line. destruct (chomp raw); [discriminate|]. now rewrite Htok. }
  unfold main_iteration. cbn [log stdin]. rewrite Hget, Hline.
  cbn [dispatch]. unfold read_answer. cbn [log stdin fs trace].
  destruct (fgets 16 rest) as [[ans rest']|] eqn:Ha.
  - assert (Hno : affirmative ans = false).
    { destruct (Hans _ _ eq_refl) as [Hy HY].
      destruct ans as [|c ans]; [reflexivity|]. cbn.
      apply orb_false_iff; split; apply Ascii.eqb_neq; intros ->;
        [apply Hy | apply HY]; now exists ans. }
    rewrite Hno. eexists; eexists. unfold say, log. cbn [stdin fs trace].
    repeat split; [rewrite <- !app_assoc; reflexivity | repeat constructor].
  - eexists; eexists. unfold log. cbn [stdin fs trace].
    repeat split; [rewrite <- !app_assoc; reflexivity | repeat constructor].
Qed.

End SessionProperties.

Lemma sd_without_night_ops_rejected_witness :
  exists r,
    sd_rejection r /\
    parse_line "example.com -md -sd 90s" = Rejected r /\
    @main_iteration _ (MemFs.os "") (Some "/opt/kno/kno-url")
      (initial_world "example.com -md -sd 90s")
    = Continue
        {| stdin := ""; fs := MemFs.disk;
           trace := [Out "Main URL: ";
                     Out (rejection_message r
                          ++ String newline EmptyString)] |}.
Proof.
  refine (@sd_without_night_ops_rejected _ (MemFs.os "")
            (Some "/opt/kno/kno-url") (initial_world "example.com -md -sd 90s")
            "example.com -md -sd 90s" "" "https://example.com"
            ["-md"; "-sd"; "90s"] eq_refl eq_refl _ _).
  - cbn. tauto.
  - cbn. intuition discriminate.
Defined.

Lemma standalone_night_ops_declined_witness :
  exists w' printed,
    @main_iteration _ (MemFs.os "") (Some "/opt/kno/kno-url")
      (initial_world ("--night-ops" ++ String newline ("n" ++ String newline "")))
    = Continue w' /\
    fs w' = MemFs.disk /\
    trace w' = printed /\ Forall is_output printed.
Proof.
  refine (@standalone_night_ops_declined _ (MemFs.os "")
            (Some "/opt/kno/kno-url")
            (initial_world ("--night-ops" ++ String newline ("n" ++ String newline "")))
            ("--night-ops" ++ String newline "")
            ("n" ++ String newline "") eq_refl eq_refl _).
  intros ans rest' [= <- <-].
  split; intros [r E]; discriminate E.
Defined.

(** The affirmative answer, for comparison: the cache directory and the
    executable are gone and [main] returns 0. *)
Example standalone_night_ops_confirmed :
  exists w',
    @main_iteration _ (MemFs.os "") (Some "/opt/kno/kno-url")
      (initial_world ("--night-ops" ++ String newline ("y" ++ String newline "")))
    = Return 0 w' /\
    fs w' = [("/opt/kno", None)].
Proof. eexists. split; reflexivity. Qed.

(** The turn of C1 as a whole: over a page with a script and an image,
    the line [example.com -s --no-media] prints that nothing matched. *)
Example exclusion_line_matches_nothing :
  @main_iteration _
    (MemFs.os "<script src='http://a.example/x.js'></script> <img src='http://a.example/y.png'>")
    None (initial_world "example.com -s --no-media")
  = Continue
      {| stdin := ""; fs := MemFs.disk;
         trace :=
           [Out "Main URL: ";
            Out ("[*] Fetching HTML from https://example.com ..."
                 ++ String newline "");
            Fetch "https://example.com";
            Out ("[*] No URLs matched filters." ++ String newline "")] |}.
Proof. reflexivity. Qed.

(** The flags of a line are the tokens after its URL: a [-sd] in front of
    a URL that the fallback scan finds is not among them. *)
Example sd_in_front_of_url :
  parse_line "-sd 90s http://x.org" = Scrape "http://x.org" [] false (-1).
Proof. reflexivity. Qed.

(** C5 as it is stated fails: in the line [-sd 90s http://x.org] the
    [-sd] stands in front of the URL.  The first token begins with a
    dash and is not [-u], so the URL is the first token that looks like
    one, and the flags are the tokens after it: the [-sd] and its
    duration are dropped, no [--night-ops] is on the line, and the line
    is not turned down. *)
Lemma sd_in_front_of_url_is_scraped :
  ~ (forall raw url args,
        locate_url (split_tokens (chomp raw) 64) = (Some url, args) ->
        In "-sd" (split_tokens (chomp raw) 64) ->
        ~ In "--night-ops" (split_tokens (chomp raw) 64) ->
        exists r, parse_line raw = Rejected r).
Proof.
  intros Hall.
  destruct (Hall "-sd 90s http://x.org" "http://x.org" [] eq_refl)
    as [r Hr].
  - vm_compute. tauto.
  - vm_compute. intuition discriminate.
  - discriminate Hr.
Qed.

(** The session on that line: the page is fetched and its URLs are
    printed. *)
Example sd_in_front_of_url_session :
  @main_iteration _ (MemFs.os "<a href='http://a.example/x.js'>") None
    (initial_world "-sd 90s http://x.org")
  = Continue
      {| stdin := ""; fs := MemFs.disk;
         trace :=
           [Out "Main URL: ";
            Out ("[*] Fetching HTML from http://x.org ..."
                 ++ String newline "");
            Fetch "http://x.org";
            Out ("SCRIPTS" ++ String newline "");
            Out ("http://a.example/x.js" ++ String newline "");
            Out (String newline "")] |}.
Proof. reflexivity. Qed.

(** * Further properties *)

(** ** The tokenizer *)

Lemma skip_spaces_head p c q :
  skip_spaces p = String c q -> isspace c = false.
Proof.
  induction p as [|d p IH]; cbn [skip_spaces]; [discriminate|].
  destruct (isspace d) eqn:E; [exact IH|]. now intros [= <- _].
Qed.

Lemma token_span_space_free p : space_free (fst (token_span p)).
Proof.
  induction p as [|c p IH]; cbn [token_span]; [intros d []|].
  destruct (isspace c) eqn:E; [intros d []|].
  destruct (token_span p) as [t r]; cbn [fst] in *.
  intros d [<-|Hd]; [exact E | now apply IH].
Qed.

(** X1: the tokens of a line are at most [max_tokens], none is empty and
    none holds a white-space character. *)
Theorem split_tokens_well_formed (line : string) (max_tokens : nat) :
  length (split_tokens line max_tokens) <= max_tokens /\
  Forall (fun t => t <> "" /\ space_free t) (split_tokens line max_tokens).
Proof.
  revert line; induction max_tokens as [|n IH]; intros line;
    cbn [split_tokens]; [split; [cbn; lia | constructor]|].
  destruct (skip_spaces line) as [|c q] eqn:Hs;
    [split; [cbn; lia | constructor]|].
  pose proof (skip_spaces_head _ _ _ Hs) as Hc.
  pose proof (token_span_space_free (String c q)) as Hfree.
  cbn [token_span] in *. rewrite Hc in *.
  destruct (token_span q) as [t r]; cbn [fst] in Hfree.
  destruct (IH r) as [Hlen Hall]. split; [cbn [length]; lia|].
  constructor; [split; [discriminate | exact Hfree] | exact Hall].
Qed.

Lemma skip_spaces_token t rest :
  t <> "" -> space_free t -> skip_spaces (t ++ rest) = t ++ rest.
Proof.
  destruct t as [|c t]; [congruence|]. intros _ Hf.
  cbn [append skip_spaces]. now rewrite (Hf c (or_introl eq_refl)).
Qed.

Lemma token_span_last t : space_free t -> token_span t = (t, "").
Proof.
  induction t as [|c t IH]; intros Hf; [reflexivity|].
  cbn [token_span]. rewrite (Hf c (or_introl eq_refl)).
  rewrite IH; [reflexivity|]. intros d Hd; apply Hf; now right.
Qed.

Lemma token_span_token t rest :
  space_free t -> token_span (t ++ String " " rest) = (t, rest).
Proof.
  induction t as [|c t IH]; intros Hf; [reflexivity|].
  cbn [append token_span]. rewrite (Hf c (or_introl eq_refl)).
  rewrite IH; [reflexivity|]. intros d Hd; apply Hf; now right.
Qed.

Lemma split_tokens_last t n :
  t <> "" -> space_free t -> split_tokens t (S n) = [t].
Proof.
  intros Hne Hf. destruct t as [|c t]; [congruence|].
  pose proof (token_span_last _ Hf) as Hspan.
  cbn [split_tokens skip_spaces]. rewrite (Hf c (or_introl eq_refl)).
  rewrite Hspan. destruct n; reflexivity.
Qed.

Lemma split_tokens_cons t rest n :
  t <> "" -> space_free t ->
  split_tokens (t ++ String " " rest) (S n) = t :: split_tokens rest n.
Proof.
  intros Hne Hf. destruct t as [|c t]; [congruence|].
  pose proof (token_span_token _ rest Hf) as Hspan.
  cbn [append] in Hspan.
  cbn [split_tokens append skip_spaces]. rewrite (Hf c (or_introl eq_refl)).
  now rewrite Hspan.
Qed.

(** X2: a line made of tokens with one space between them is split into
    these tokens again, when they fit into the array. *)
Theorem split_tokens_join (tokens : list string) (max_tokens : nat) :
  Forall (fun t => t <> "" /\ space_free t) tokens ->
  length tokens <= max_tokens ->
  split_tokens (join " " tokens) max_tokens = tokens.
Proof.
  intros Hall; revert max_tokens.
  induction Hall as [|t l [Hne Hf] Hl IH]; intros n Hlen.
  - destruct n; reflexivity.
  - destruct n as [|n]; [cbn in Hlen; lia|]. cbn [length] in Hlen.
    destruct l as [|t' l].
    + now apply split_tokens_last.
    + change (join " " (t :: t' :: l))
        with (t ++ String " " (join " " (t' :: l))).
      rewrite split_tokens_cons by assumption. f_equal. apply IH. lia.
Qed.

Lemma split_tokens_join_witness :
  split_tokens (join " " ["example.com"; "-md"; "--search"; "img,png"]) 64
  = ["example.com"; "-md"; "--search"; "img,png"].
Proof.
  apply (split_tokens_join ["example.com"; "-md"; "--search"; "img,png"] 64).
  - repeat constructor; try discriminate;
      intros c Hc; cbn in Hc;
      repeat (destruct Hc as [<-|Hc]; [reflexivity|]); destruct Hc.
  - cbn. lia.
Defined.

(** ** Substring search *)

Lemma match_ci_at_split h n :
  match_ci_at h n = true ->
  exists mid post,
    h = mid ++ post /\ map_string tolower mid = map_string tolower n.
Proof.
  revert h; induction n as [|c n IH]; intros h; cbn [match_ci_at].
  - intros _. now exists "", h.
  - destruct h as [|d h]; [discriminate|].
    intros E; apply andb_prop in E; destruct E as [E1 E2].
    apply Ascii.eqb_eq in E1.
    destruct (IH _ E2) as (mid & post & -> & Hm).
    exists (String d mid), post. split; [reflexivity|].
    cbn [map_string]. now rewrite E1, Hm.
Qed.

Lemma strcasestr_from_split h n :
  strcasestr_from h n = true -> contains_ci h n.
Proof.
  induction h as [|c h IH]; cbn [strcasestr_from].
  - destruct (_ && match_ci_at "" n) eqn:E; [|discriminate].
    intros _. apply andb_prop in E. destruct E as [_ E].
    destruct (match_ci_at_split _ _ E) as (mid & post & Hh & Hm).
    now exists "", mid, post.
  - destruct (_ && match_ci_at (String c h) n) eqn:E.
    + intros _. apply andb_prop in E. destruct E as [_ E].
      destruct (match_ci_at_split _ _ E) as (mid & post & Hh & Hm).
      now exists "", mid, post.
    + intros Hr. destruct (IH Hr) as (pre & mid & post & -> & Hm).
      now exists (String c pre), mid, post.
Qed.

(** X3: [strcasestr_bool] says whether a needle that is not empty occurs
    in the haystack when the case of the letters is ignored; for the
    empty needle the answer is no. *)
Theorem strcasestr_bool_spec (haystack needle : string) :
  strcasestr_bool haystack needle = true
  <-> needle <> "" /\ contains_ci haystack needle.
Proof.
  split.
  - unfold strcasestr_bool. destruct needle as [|c n]; [discriminate|].
    destruct (_ <? _)%nat; [discriminate|]. intros Hf.
    split; [discriminate | now apply strcasestr_from_split].
  - intros [Hne Hc]. destruct needle as [|c n]; [congruence|].
    now apply strcasestr_bool_contains_ci.
Qed.

(** ** Categorization *)

(** X4: a URL is put under API / ENDPOINTS exactly when it contains
    "/api/", or "graphql" in any case. *)
Theorem categorize_url_api_iff (url : string) :
  categorize_url url = "API / ENDPOINTS"
  <-> contains url "/api/" \/ contains_ci url "graphql".
Proof.
  split; [|apply categorize_url_api].
  unfold categorize_url.
  destruct (has_substr url "/api/") eqn:Ha.
  - intros _. left. now apply contains_has_substr.
  - destruct (strcasestr_bool url "graphql") eqn:Hg.
    + intros _. right. now apply strcasestr_bool_spec in Hg.
    + cbn [orb].
      repeat match goal with
             | |- (if ?b then _ else _) = _ -> _ => destruct b
             end; discriminate.
Qed.

Lemma strchr_none s c : strchr s c = None <-> ~ char_in c s.
Proof.
  induction s as [|a s IH]; cbn [strchr char_in]; [tauto|].
  destruct (Ascii.eqb a c) eqn:E.
  - apply Ascii.eqb_eq in E. split; [discriminate | tauto].
  - apply Ascii.eqb_neq in E. rewrite IH. tauto.
Qed.

Lemma strrchr_none s c : strrchr s c = None <-> ~ char_in c s.
Proof.
  induction s as [|a s IH]; cbn [strrchr char_in]; [tauto|].
  destruct (strrchr s c) as [r|].
  - split; [discriminate|]. intros Hn. exfalso.
    assert (Hs : ~ char_in c s) by tauto. apply IH in Hs. discriminate.
  - destruct (Ascii.eqb a c) eqn:E.
    + apply Ascii.eqb_eq in E. split; [discriminate | tauto].
    + apply Ascii.eqb_neq in E. tauto.
Qed.

Lemma strrchr_last s c r :
  strrchr s c = Some r ->
  exists pre rest,
    s = pre ++ String c rest /\ r = String c rest /\ ~ char_in c rest.
Proof.
  revert r; induction s as [|a s IH]; intros r; cbn [strrchr]; [discriminate|].
  destruct (strrchr s c) as [r'|] eqn:Hs.
  - intros [= <-]. destruct (IH _ eq_refl) as (pre & rest & -> & -> & Hn).
    now exists (String a pre), rest.
  - destruct (Ascii.eqb a c) eqn:E; [|discriminate].
    apply Ascii.eqb_eq in E; subst a. intros [= <-].
    exists "", s. repeat split. now apply strrchr_none.
Qed.

Lemma strrchr_found pre rest c :
  ~ char_in c rest ->
  strrchr (pre ++ String c rest) c = Some (String c rest).
Proof.
  intros Hn. apply strrchr_append. cbn [strrchr].
  apply strrchr_none in Hn. now rewrite Hn, Ascii.eqb_refl.
Qed.

(** X5: the extension of a URL is what follows its last dot, with the
    dot, when no slash follows that dot; in every other case it is
    empty. *)
Theorem get_ext_spec (url : string) :
  (forall pre rest,
      url = pre ++ String "." rest ->
      ~ char_in "." rest -> ~ char_in "/" rest ->
      get_ext url = String "." rest) /\
  (get_ext url <> "" ->
   exists pre rest,
     url = pre ++ String "." rest /\ get_ext url = String "." rest /\
     ~ char_in "." rest /\ ~ char_in "/" rest).
Proof.
  split.
  - intros pre rest -> Hd Hs. unfold get_ext.
    rewrite (strrchr_found pre rest "." Hd).
    assert (E : strchr (String "." rest) "/" = None)
      by (apply strchr_none; cbn [char_in]; intros [?|?];
          [discriminate | tauto]).
    now rewrite E.
  - unfold get_ext. destruct (strrchr url ".") as [p|] eqn:Hp; [|congruence].
    destruct (strchr p "/") eqn:Hs; [congruence|]. intros _.
    destruct (strrchr_last _ _ _ Hp) as (pre & rest & -> & -> & Hd).
    exists pre, rest. repeat split; auto.
    apply strchr_none in Hs. cbn [char_in] in Hs. tauto.
Qed.

Lemma get_ext_spec_witness :
  get_ext "https://example.com/v1.2/logo.PNG" = ".PNG" /\
  exists pre rest,
    "https://example.com/v1.2/logo.PNG" = pre ++ String "." rest /\
    get_ext "https://example.com/v1.2/logo.PNG" = String "." rest /\
    ~ char_in "." rest /\ ~ char_in "/" rest.
Proof.
  split.
  - apply (proj1 (get_ext_spec "https://example.com/v1.2/logo.PNG")
             "https://example.com/v1.2/logo" "PNG" eq_refl);
      cbn; intuition discriminate.
  - apply (proj2 (get_ext_spec "https://example.com/v1.2/logo.PNG")).
    discriminate.
Defined.

(** ** URL normalization *)

(** X6: a token that is not empty is always normalized: to itself or to
    itself after "https://"; and when it holds a dot or a colon the
    result begins with "http://" or "https://". *)
Theorem normalize_url_shape (u : string) :
  u <> "" ->
  exists v,
    normalize_url u = Some v /\
    (v = u \/ v = "https://" ++ u) /\
    (char_in "." u \/ char_in ":" u ->
     begins_with v "http://" \/ begins_with v "https://").
Proof.
  intros Hu. destruct u as [|c u]; [congruence|]. unfold normalize_url.
  destruct (has_prefix (String c u) "http://") eqn:H1.
  - exists (String c u). cbn [orb]. repeat split; auto.
    intros _. left. now apply has_prefix_split.
  - destruct (has_prefix (String c u) "https://") eqn:H2.
    + exists (String c u). cbn [orb]. repeat split; auto.
      intros _. right. now apply has_prefix_split.
    + cbn [orb]. destruct (has_prefix (String c u) "www.").
      * eexists. repeat split; auto. intros _. right. now eexists.
      * destruct (strchr (String c u) ".") eqn:Hd.
        -- eexists. repeat split; auto. intros _. right. now eexists.
        -- destruct (strchr (String c u) ":") eqn:Hc.
           ++ eexists. repeat split; auto. intros _. right. now eexists.
           ++ exists (String c u). repeat split; auto.
              apply strchr_none in Hd, Hc. tauto.
Qed.

Lemma normalize_url_shape_witness :
  exists v,
    normalize_url "localhost:8080" = Some v /\
    (v = "localhost:8080" \/ v = "https://" ++ "localhost:8080") /\
    (char_in "." "localhost:8080" \/ char_in ":" "localhost:8080" ->
     begins_with v "http://" \/ begins_with v "https://").
Proof. apply (normalize_url_shape "localhost:8080"). discriminate. Defined.

(** ** Duration parsing *)

Lemma duration_units_body buf total :
  duration_units buf total =
  match buf with
  | EmptyString => finish_duration total
  | String c b =>
      if isdigit c then
        match read_number (String c b) 0 with
        | (val, EmptyString) => finish_duration (wrap_long (total + val))
        | (val, String unit rest) =>
            if Ascii.eqb unit "h"
            then duration_units rest
                   (wrap_long (total + wrap_long (val * 3600)))
            else if Ascii.eqb unit "m"
            then duration_units rest
                   (wrap_long (total + wrap_long (val * 60)))
            else if Ascii.eqb unit "s"
            then duration_units rest (wrap_long (total + val))
            else (-1)%Z
        end
      else (-1)%Z
  end.
Proof.
  funelim (duration_units buf total); try reflexivity;
    match goal with
    | E : isdigit _ = _ |- _ => rewrite E
    end; try reflexivity;
    match goal with
    | E : read_number _ _ = _ |- _ => now rewrite E
    end.
Qed.

Lemma finish_duration_range total :
  finish_duration total = (-1)%Z \/ (0 < finish_duration total)%Z.
Proof.
  unfold finish_duration. destruct (0 <? total)%Z eqn:E; [right|now left].
  now apply Z.ltb_lt.
Qed.

Lemma duration_units_range buf total :
  duration_units buf total = (-1)%Z \/ (0 < duration_units buf total)%Z.
Proof.
  funelim (duration_units buf total);
    auto using finish_duration_range.
  repeat match goal with
         | |- context [if ?b then _ else _] => destruct b
         end; auto.
Qed.

Lemma decimal_nonneg buf acc : (0 <= acc)%Z -> (0 <= decimal buf acc)%Z.
Proof.
  revert acc; induction buf as [|c b IH]; intros acc Ha; cbn [decimal]; auto.
  destruct (isdigit c) eqn:E; [|exact Ha]. apply IH.
  unfold isdigit in E. apply andb_prop in E. destruct E as [E _].
  apply Nat.leb_le in E. unfold digit_value. lia.
Qed.

(** X7: [parse_duration_seconds] gives -1 or a positive number of
    seconds, except that a string of digits, which goes through [atol],
    can give 0; it never gives less than -1.  The digits are those of
    the input without white space, cut to the 127 characters of the
    buffer. *)
Theorem parse_duration_seconds_range (s : string) :
  parse_duration_seconds s = (-1)%Z \/
  (0 < parse_duration_seconds s)%Z \/
  (parse_duration_seconds s = 0%Z /\
   all_digits (squeeze_lower 127 s) = true).
Proof.
  unfold parse_duration_seconds. destruct s as [|c s]; [now left|].
  destruct (squeeze_lower 127 (String c s)) as [|d buf]; [now left|].
  destruct (all_digits (String d buf)) eqn:E.
  - right. unfold atol.
    pose proof (decimal_nonneg (String d buf) 0 (Z.le_refl 0)) as Hd.
    assert (Hm : (0 <= Z.min (decimal (String d buf) 0) LONG_MAX)%Z)
      by (apply Z.min_glb; [exact Hd | unfold LONG_MAX; lia]).
    destruct (Z.eq_dec (Z.min (decimal (String d buf) 0) LONG_MAX) 0);
      [right; auto | left; lia].
  - destruct (duration_units_range (String d buf) 0); auto.
Qed.


Lemma tolower_isspace c : isspace (tolower c) = isspace c.
Proof. destruct c as [[] [] [] [] [] [] [] []]; reflexivity. Qed.

Lemma tolower_tolower c : tolower (tolower c) = tolower c.
Proof. destruct c as [[] [] [] [] [] [] [] []]; reflexivity. Qed.

Lemma squeeze_lower_tolower room s :
  squeeze_lower room (map_string tolower s) = squeeze_lower room s.
Proof.
  revert room; induction s as [|c s IH]; intros room;
    [now destruct room|].
  destruct room as [|room]; [reflexivity|].
  cbn [map_string squeeze_lower]. rewrite tolower_isspace, tolower_tolower.
  destruct (isspace c); [apply IH | now rewrite IH].
Qed.

Lemma squeeze_lower_space room s1 c s2 :
  isspace c = true ->
  squeeze_lower room (s1 ++ String c s2) = squeeze_lower room (s1 ++ s2).
Proof.
  intros Hc. revert room; induction s1 as [|d s1 IH]; intros room.
  - cbn [append]. destruct room as [|room]; [now destruct s2|].
    cbn [squeeze_lower]. now rewrite Hc.
  - destruct room as [|room]; [reflexivity|].
    cbn [append squeeze_lower]. destruct (isspace d); [apply IH | now rewrite IH].
Qed.

Lemma parse_duration_seconds_squeezed s1 s2 :
  squeeze_lower 127 s1 = squeeze_lower 127 s2 ->
  parse_duration_seconds s1 = parse_duration_seconds s2.
Proof.
  unfold parse_duration_seconds. intros E.
  destruct s1 as [|c1 s1], s2 as [|c2 s2]; try reflexivity.
  - rewrite <- E. reflexivity.
  - rewrite E. reflexivity.
  - now rewrite E.
Qed.

(** X8: white space anywhere in a duration, and the case of its letters,
    do not change what [parse_duration_seconds] gives. *)
Theorem parse_duration_seconds_space_case :
  (forall s1 c s2,
      isspace c = true ->
      parse_duration_seconds (s1 ++ String c s2)
      = parse_duration_seconds (s1 ++ s2)) /\
  (forall s1 s2,
      map_string tolower s1 = map_string tolower s2 ->
      parse_duration_seconds s1 = parse_duration_seconds s2).
Proof.
  split.
  - intros s1 c s2 Hc. apply parse_duration_seconds_squeezed.
    now apply squeeze_lower_space.
  - intros s1 s2 E. apply parse_duration_seconds_squeezed.
    now rewrite <- (squeeze_lower_tolower 127 s1), E, squeeze_lower_tolower.
Qed.

Lemma parse_duration_seconds_space_case_witness :
  parse_duration_seconds "1h 30m" = parse_duration_seconds "1h30m" /\
  parse_duration_seconds "1H30M" = parse_duration_seconds "1h30m".
Proof.
  split.
  - apply (proj1 parse_duration_seconds_space_case "1h" " "%char "30m").
    reflexivity.
  - apply (proj2 parse_duration_seconds_space_case "1H30M" "1h30m").
    reflexivity.
Defined.

Lemma wrap_long_small z :
  (- 2 ^ 63 <= z < 2 ^ 63)%Z -> wrap_long z = z.
Proof.
  intros Hz. unfold wrap_long.
  rewrite Z.mod_small; lia.
Qed.

Lemma isdigit_value c : isdigit c = true -> (0 <= digit_value c <= 9)%Z.
Proof.
  unfold isdigit, digit_value. intros E. apply andb_prop in E.
  destruct E as [E1 E2]. apply Nat.leb_le in E1, E2. lia.
Qed.

Lemma decimal_grows d acc :
  all_digits d = true -> (0 <= acc)%Z -> (acc <= decimal d acc)%Z.
Proof.
  revert acc; induction d as [|c d IH]; intros acc Hd Ha; cbn [decimal];
    [lia|].
  cbn [all_digits] in Hd. apply andb_prop in Hd. destruct Hd as [Hc Hd].
  rewrite Hc. pose proof (isdigit_value c Hc).
  specialize (IH (acc * 10 + digit_value c)%Z Hd). lia.
Qed.

(** Without overflow the digit loop reads the decimal value. *)
Lemma read_number_digits d rest acc :
  all_digits d = true -> (0 <= acc)%Z -> (decimal d acc < 2 ^ 63)%Z ->
  match rest with
  | EmptyString => True
  | String u _ => isdigit u = false
  end ->
  read_number (d ++ rest) acc = (decimal d acc, rest).
Proof.
  revert acc; induction d as [|c d IH]; intros acc Hd Ha Hb Hr.
  - cbn [append decimal]. destruct rest as [|u r]; [reflexivity|].
    cbn [read_number]. now rewrite Hr.
  - cbn [all_digits] in Hd. apply andb_prop in Hd. destruct Hd as [Hc Hd].
    cbn [append read_number decimal] in *. rewrite Hc in *.
    pose proof (isdigit_value c Hc).
    pose proof (decimal_grows d (acc * 10 + digit_value c)%Z Hd).
    rewrite wrap_long_small by lia. apply IH; auto; lia.
Qed.

Lemma is_unit_not_digit u : is_unit u = true -> isdigit u = false.
Proof.
  unfold is_unit. intros E.
  repeat (apply orb_prop in E; destruct E as [E|E]);
    apply Ascii.eqb_eq in E; subst; reflexivity.
Qed.

Lemma parts_seconds_nonneg parts :
  Forall good_part parts -> (0 <= parts_seconds parts)%Z.
Proof.
  induction 1 as [|[d u] l (_ & Hd & _) _ IH]; cbn [parts_seconds]; [lia|].
  cbn [fst] in Hd.
  pose proof (decimal_nonneg d 0 (Z.le_refl 0)).
  assert (0 < unit_seconds u)%Z
    by (unfold unit_seconds; destruct (Ascii.eqb u "h");
        [|destruct (Ascii.eqb u "m")]; lia).
  nia.
Qed.

(** The loop over the units adds up the parts. *)
Lemma duration_units_parts parts total :
  Forall good_part parts ->
  (0 <= total)%Z -> (total + parts_seconds parts < 2 ^ 63)%Z ->
  duration_units (render_parts parts) total
  = finish_duration (total + parts_seconds parts).
Proof.
  intros Hall; revert total.
  induction Hall as [|[d u] l (Hne & Hd & Hu) Hl IH]; intros total Ht Hb.
  - cbn [render_parts parts_seconds]. rewrite duration_units_body.
    now rewrite Z.add_0_r.
  - cbn [fst snd] in *. cbn [render_parts parts_seconds] in *.
    pose proof (parts_seconds_nonneg l Hl) as Hl0.
    pose proof (decimal_nonneg d 0 (Z.le_refl 0)) as Hd0.
    assert (Hu1 : (1 <= unit_seconds u)%Z)
      by (unfold unit_seconds; destruct (Ascii.eqb u "h");
          [|destruct (Ascii.eqb u "m")]; lia).
    assert (Hv : (decimal d 0 <= decimal d 0 * unit_seconds u)%Z) by nia.
    destruct d as [|c d]; [congruence|].
    assert (Hc : isdigit c = true)
      by (cbn [all_digits] in Hd; now apply andb_prop in Hd).
    rewrite duration_units_body.
    change (String c d ++ String u (render_parts l))
      with (String c (d ++ String u (render_parts l))).
    cbv beta iota. rewrite Hc.
    change (String c (d ++ String u (render_parts l)))
      with (String c d ++ String u (render_parts l)).
    rewrite (read_number_digits (String c d) (String u (render_parts l)) 0);
      [| exact Hd | lia | lia | now apply is_unit_not_digit].
    unfold is_unit in Hu. unfold unit_seconds in *.
    destruct (Ascii.eqb u "h") eqn:Eh.
    + rewrite (wrap_long_small (_ * _)) by lia.
      rewrite wrap_long_small by lia. rewrite IH by lia. f_equal. lia.
    + destruct (Ascii.eqb u "m") eqn:Em.
      * rewrite (wrap_long_small (_ * _)) by lia.
        rewrite wrap_long_small by lia. rewrite IH by lia. f_equal. lia.
      * cbn [orb] in Hu. rewrite Hu. rewrite Z.mul_1_r in *.
        rewrite !wrap_long_small by lia. rewrite IH by lia. f_equal. lia.
Qed.

Lemma squeeze_lower_plain room s :
  (forall c, char_in c s -> isspace c = false /\ tolower c = c) ->
  strlen s <= room -> squeeze_lower room s = s.
Proof.
  revert room; induction s as [|c s IH]; intros room Hs Hl;
    [now destruct room|].
  destruct room as [|room]; [unfold strlen in Hl; simpl in Hl; lia|].
  destruct (Hs c (or_introl eq_refl)) as [H1 H2].
  cbn [squeeze_lower]. rewrite H1, H2, IH; auto.
  - intros d Hd; apply Hs; now right.
  - unfold strlen in *; simpl in *; lia.
Qed.

Lemma isdigit_plain c : isdigit c = true -> isspace c = false /\ tolower c = c.
Proof.
  destruct c as [[] [] [] [] [] [] [] []]; cbn; intros E;
    try discriminate; split; reflexivity.
Qed.

Lemma is_unit_plain c : is_unit c = true -> isspace c = false /\ tolower c = c.
Proof.
  unfold is_unit. intros E.
  repeat (apply orb_prop in E; destruct E as [E|E]);
    apply Ascii.eqb_eq in E; subst; split; reflexivity.
Qed.

Lemma char_in_append c s t : char_in c (s ++ t) -> char_in c s \/ char_in c t.
Proof.
  induction s as [|a s IH]; cbn [append char_in]; [tauto|].
  intros [?|H]; [tauto|]. destruct (IH H); tauto.
Qed.

Lemma all_digits_char d c : all_digits d = true -> char_in c d -> isdigit c = true.
Proof.
  induction d as [|a d IH]; cbn [all_digits char_in]; [tauto|].
  intros E. apply andb_prop in E. destruct E as [E1 E2].
  intros [<-|H]; auto.
Qed.

Lemma render_parts_plain parts c :
  Forall good_part parts -> char_in c (render_parts parts) ->
  isspace c = false /\ tolower c = c.
Proof.
  induction 1 as [|[d u] l (_ & Hd & Hu) _ IH]; cbn [render_parts fst snd] in *;
    [intros []|].
  intros Hc. apply char_in_append in Hc. destruct Hc as [Hc|[<-|Hc]].
  - apply isdigit_plain. eapply all_digits_char; eassumption.
  - now apply is_unit_plain.
  - now apply IH.
Qed.

Lemma all_digits_part d u rest :
  isdigit u = false -> all_digits (d ++ String u rest) = false.
Proof.
  intros Hu. induction d as [|c d IH]; cbn [append all_digits].
  - now rewrite Hu.
  - rewrite IH. apply andb_false_r.
Qed.

(** X9: a duration written as numbers with unit letters, in any order
    and number, is the sum of its parts, hours as 3600 and minutes as 60
    seconds, when the text fits the buffer and the sum fits a [long]; a
    sum of 0 is turned down. *)
Theorem parse_duration_seconds_parts (parts : list (string * ascii)) :
  parts <> [] -> Forall good_part parts ->
  strlen (render_parts parts) <= 127 ->
  (parts_seconds parts <= LONG_MAX)%Z ->
  parse_duration_seconds (render_parts parts)
  = if (0 <? parts_seconds parts)%Z then parts_seconds parts else (-1)%Z.
Proof.
  intros Hne Hall Hlen Hmax. unfold parse_duration_seconds.
  rewrite squeeze_lower_plain;
    [| intros c; now apply render_parts_plain | exact Hlen].
  assert (Hnd : all_digits (render_parts parts) = false).
  { destruct parts as [|[d u] l]; [congruence|].
    inversion Hall as [|? ? (_ & _ & Hu) _]; subst.
    cbn [render_parts]. apply all_digits_part. now apply is_unit_not_digit. }
  pose proof (duration_units_parts parts 0 Hall (Z.le_refl 0)) as Hsum.
  rewrite Z.add_0_l in Hsum. unfold LONG_MAX in Hmax. specialize (Hsum ltac:(lia)).
  destruct (render_parts parts) as [|c r]; [discriminate|].
  now rewrite Hnd, Hsum.
Qed.

Lemma parse_duration_seconds_parts_witness :
  parse_duration_seconds "30m1h90s" = 5490%Z.
Proof.
  apply (parse_duration_seconds_parts
           [("30", "m"%char); ("1", "h"%char); ("90", "s"%char)]).
  - discriminate.
  - repeat constructor; discriminate.
  - unfold strlen; simpl; lia.
  - vm_compute; discriminate.
Defined.

(** ** The filter of [run_html_mode] *)

Lemma filter_snoc {A} (p : A -> bool) l x :
  filter p (l ++ [x]) = (filter p l ++ (if p x then [x] else []))%list.
Proof. rewrite filter_app. cbn [filter]. now destruct (p x). Qed.

Lemma filter_step_buckets_of f done u :
  filter_step f (buckets_of f done) u = buckets_of f (done ++ [u]).
Proof.
  unfold filter_step, buckets_of. rewrite !filter_snoc.
  repeat match goal with
         | |- context [kept_as f ?n u] =>
             change (kept_as f n u)
               with (passes_filters f u && streq (categorize_url u) n)
         end.
  destruct (passes_filters f u); cbn [andb].
  - pose proof (categorize_url_in_names u) as Hin. unfold names in Hin.
    cbn [In] in Hin.
    destruct Hin as [E|[E|[E|[E|[E|[E|[]]]]]]]; rewrite <- E;
      unfold add_to_bucket, sl_add; cbn; now rewrite ?app_nil_r.
  - now rewrite !app_nil_r.
Qed.

Lemma fill_buckets_buckets_of f urls :
  fill_buckets f urls = buckets_of f urls.
Proof.
  unfold fill_buckets.
  change empty_buckets with (buckets_of f []).
  change urls with ([] ++ urls)%list at 2.
  generalize (@nil string) as done.
  induction urls as [|u l IH]; intros done; cbn [fold_left].
  - now rewrite app_nil_r.
  - rewrite filter_step_buckets_of, IH. now rewrite <- app_assoc.
Qed.

(** X10: the URLs that are kept are those that pass the filters, grouped
    by category in the display order and, within a category, in the
    order in which they were extracted. *)
Theorem kept_urls_grouped (f : ScrapeFlags) (all_urls : list string) :
  kept_urls f all_urls
  = concat (map (fun name => filter (kept_as f name) all_urls) names).
Proof.
  unfold kept_urls. now rewrite fill_buckets_buckets_of.
Qed.

Lemma kept_urls_In f all_urls u :
  In u (kept_urls f all_urls) <-> In u all_urls /\ passes_filters f u = true.
Proof.
  rewrite kept_urls_grouped, in_concat. split.
  - intros (l & Hl & Hu). apply in_map_iff in Hl.
    destruct Hl as (name & <- & _). apply filter_In in Hu.
    destruct Hu as [Hu Hk]. unfold kept_as in Hk.
    apply andb_prop in Hk. tauto.
  - intros [Hu Hp]. exists (filter (kept_as f (categorize_url u)) all_urls).
    split.
    + apply in_map_iff. exists (categorize_url u). split; [reflexivity|].
      apply categorize_url_in_names.
    + apply filter_In. split; [exact Hu|]. unfold kept_as, streq.
      now rewrite Hp, String.eqb_refl.
Qed.

(** X11: without [--no-media], a URL is kept exactly when it matches the
    search terms and, if a category flag is set, its category is
    flagged. *)
Theorem kept_urls_inclusion (f : ScrapeFlags) (all_urls : list string)
  (u : string) :
  no_media_mode f = false ->
  (In u (kept_urls f all_urls)
   <-> In u all_urls /\ matches_search f u = true
       /\ (have_cat_flags f = true -> flagged f (categorize_url u) = true)).
Proof.
  intros Hn. rewrite kept_urls_In. unfold passes_filters. rewrite Hn.
  destruct (matches_search f u), (have_cat_flags f),
    (flagged f (categorize_url u)); cbn; intuition congruence.
Qed.

Lemma kept_urls_inclusion_witness :
  In "http://a.example/y.png"
     (kept_urls (parse_flags ["-md"] no_flags)
        ["http://a.example/x.js"; "http://a.example/y.png"]) /\
  ~ In "http://a.example/x.js"
     (kept_urls (parse_flags ["-md"] no_flags)
        ["http://a.example/x.js"; "http://a.example/y.png"]).
Proof.
  split.
  - apply (kept_urls_inclusion (parse_flags ["-md"] no_flags)); [reflexivity|].
    cbn. tauto.
  - intros Hin.
    apply (kept_urls_inclusion (parse_flags ["-md"] no_flags)) in Hin;
      [|reflexivity].
    destruct Hin as (_ & _ & Hf). specialize (Hf eq_refl). discriminate Hf.
Defined.

(** X12: [--no-media] without a category flag changes nothing: the same
    URLs are kept as without it. *)
Theorem no_media_alone_keeps_all (f : ScrapeFlags) (all_urls : list string) :
  have_cat_flags f = false ->
  kept_urls (set_no_media_mode f) all_urls = kept_urls f all_urls.
Proof.
  intros Hc. rewrite !kept_urls_grouped. f_equal.
  apply map_ext. intros name. apply filter_ext. intros u.
  unfold kept_as, passes_filters, matches_search.
  change (search_terms (set_no_media_mode f)) with (search_terms f).
  assert (Hc' : have_cat_flags (set_no_media_mode f) = false) by exact Hc.
  assert (Hf : flagged (set_no_media_mode f) (categorize_url u) = false).
  { unfold flagged, have_cat_flags in *. cbn [set_no_media_mode use_scripts
      use_media use_api use_docs use_html use_other] in *.
    repeat (apply orb_false_elim in Hc; destruct Hc as [Hc ?]).
    repeat match goal with E : _ = false |- _ => rewrite E; clear E end.
    now rewrite !andb_false_r. }
  rewrite Hc, Hc', Hf. cbn [andb negb].
  now destruct (no_media_mode f && flagged f (categorize_url u)) eqn:E;
    [apply andb_prop in E; destruct E as [_ E];
     unfold flagged, have_cat_flags in *;
     repeat (apply orb_false_elim in Hc; destruct Hc as [Hc ?]);
     repeat match goal with E' : _ = false |- _ => rewrite E' in E; clear E' end;
     rewrite !andb_false_r in E; discriminate|].
Qed.

Lemma no_media_alone_keeps_all_witness :
  kept_urls (parse_flags ["--no-media"] no_flags)
    ["http://a.example/x.js"; "http://a.example/y.png"]
  = ["http://a.example/x.js"; "http://a.example/y.png"].
Proof.
  apply (no_media_alone_keeps_all no_flags
           ["http://a.example/x.js"; "http://a.example/y.png"]).
  reflexivity.
Defined.

(** X13: with search terms, a URL matches when one of them occurs in it,
    the case of the letters ignored; without any, every URL matches. *)
Theorem matches_search_spec (f : ScrapeFlags) (u : string) :
  matches_search f u = true
  <-> search_terms f = []
      \/ exists term,
           In term (search_terms f) /\ term <> "" /\ contains_ci u term.
Proof.
  unfold matches_search. destruct (search_terms f) as [|t l]; [tauto|].
  rewrite existsb_exists. split.
  - intros (term & Hin & Hm). right. exists term. split; [exact Hin|].
    now apply strcasestr_bool_spec.
  - intros [|(term & Hin & Hm)]; [discriminate|].
    exists term. split; [exact Hin|]. now apply strcasestr_bool_spec.
Qed.

Lemma comma_fields_comma_free s cur :
  ~ char_in "," cur ->
  Forall (fun t => ~ char_in "," t) (comma_fields s cur).
Proof.
  revert cur; induction s as [|c s IH]; intros cur Hc; cbn [comma_fields].
  - now constructor.
  - destruct (Ascii.eqb c ",") eqn:E.
    + constructor; [exact Hc|]. apply IH. intros [].
    + apply IH. intros Hin. apply char_in_append in Hin.
      apply Ascii.eqb_neq in E. cbn [char_in] in Hin. tauto.
Qed.

Lemma skip_spaces_chars c t : char_in c (skip_spaces t) -> char_in c t.
Proof.
  induction t as [|a t IH]; cbn [skip_spaces]; [tauto|].
  destruct (isspace a); cbn [char_in]; tauto.
Qed.

Lemma add_search_terms_good terms val :
  Forall good_term terms -> Forall good_term (add_search_terms terms val).
Proof.
  intros Ht. unfold add_search_terms. apply Forall_app. split; [exact Ht|].
  apply Forall_forall. intros t Hin. apply filter_In in Hin.
  destruct Hin as [Hin Hne]. split; [now destruct t|].
  apply in_map_iff in Hin. destruct Hin as (t0 & <- & Hin).
  unfold strtok_commas in Hin. apply filter_In in Hin. destruct Hin as [Hin _].
  pose proof (comma_fields_comma_free val "" (fun H => H)) as Hall.
  rewrite Forall_forall in Hall. intros Hc.
  apply (Hall t0 Hin). now apply skip_spaces_chars.
Qed.

Lemma parse_flags_search_terms n args f :
  length args <= n -> Forall good_term (search_terms f) ->
  Forall good_term (search_terms (parse_flags args f)).
Proof.
  revert args f; induction n as [|n IH]; intros args f Hlen Hf;
    (destruct args as [|a rest]; [exact Hf|]); cbn [length] in Hlen; [lia|].
  cbn [parse_flags].
  repeat match goal with
         | |- context [if streq a ?x then _ else _] =>
             destruct (streq a x); [apply IH; [lia | exact Hf]|]
         end.
  destruct rest as [|v rest'].
  - destruct (streq a "-o"), (streq a "--search"), (streq a "--full");
      apply IH; cbn [length]; auto; lia.
  - cbn [length] in Hlen.
    destruct (streq a "-o"); [apply IH; [lia | exact Hf]|].
    destruct (streq a "--search").
    + apply IH; [lia|]. now apply add_search_terms_good.
    + destruct (streq a "--full"); apply IH; cbn [length]; auto; lia.
Qed.

(** X14: the search terms that the argument loop stores, from any
    arguments, are never empty and never hold a comma. *)
Theorem parse_flags_good_terms (args : list string) :
  Forall good_term (search_terms (parse_flags args no_flags)).
Proof.
  apply (parse_flags_search_terms (length args)); [lia | constructor].
Qed.

(** ** Grouping and ordering *)

Lemma cmp_uwe_antisym u v : cmp_uwe u v = CompOpp (cmp_uwe v u).
Proof.
  unfold cmp_uwe, strcmp.
  rewrite (String.compare_antisym (get_ext v) (get_ext u)).
  rewrite (String.compare_antisym v u).
  destruct (String.compare (get_ext u) (get_ext v)); cbn;
    try reflexivity. now destruct (String.compare u v).
Qed.

Lemma insert_uwe_perm u l : Permutation (u :: l) (insert_uwe u l).
Proof.
  induction l as [|v l IH]; cbn [insert_uwe]; [reflexivity|].
  destruct (cmp_uwe u v); try reflexivity.
  rewrite perm_swap. now constructor.
Qed.

Lemma insert_uwe_head u l x :
  HdRel uwe_le x l -> uwe_le x u -> HdRel uwe_le x (insert_uwe u l).
Proof.
  intros Hl Hu. destruct l as [|v l]; cbn [insert_uwe]; [now constructor|].
  inversion Hl; subst. destruct (cmp_uwe u v); now constructor.
Qed.

Lemma insert_uwe_sorted u l :
  Sorted uwe_le l -> Sorted uwe_le (insert_uwe u l).
Proof.
  induction 1 as [|v l Hs IH Hh]; cbn [insert_uwe]; [repeat constructor|].
  destruct (cmp_uwe u v) eqn:E.
  - repeat constructor; auto. unfold uwe_le. congruence.
  - repeat constructor; auto. unfold uwe_le. congruence.
  - constructor; [exact IH|]. apply insert_uwe_head; [exact Hh|].
    unfold uwe_le. rewrite cmp_uwe_antisym, E. discriminate.
Qed.

(** The sort puts the URLs in ascending order of (extension, URL), none
    lost and none added. *)
Lemma qsort_uwe_sorted (l : list string) :
  Sorted uwe_le (qsort_uwe l) /\ Permutation l (qsort_uwe l).
Proof.
  unfold qsort_uwe. induction l as [|u l [IH1 IH2]]; cbn [fold_right].
  - split; constructor.
  - split; [now apply insert_uwe_sorted|].
    rewrite <- insert_uwe_perm. now constructor.
Qed.

Lemma group_lines_In name cl u :
  In u cl -> In u (group_lines name cl).
Proof.
  intros Hin. unfold group_lines. destruct cl as [|c cl']; [destruct Hin|].
  set (cl := c :: cl') in *. right. apply in_or_app.
  destruct (has_ext u) eqn:E.
  - left. apply (Permutation_in _ (proj2 (qsort_uwe_sorted _))).
    apply filter_In. auto.
  - right. apply in_or_app. left. apply filter_In. now rewrite E.
Qed.

Lemma group_lines_lines name cl l :
  In l (group_lines name cl) -> l = name \/ l = "" \/ In l cl.
Proof.
  unfold group_lines. destruct cl as [|c cl']; [intros []|].
  set (cl := c :: cl'). intros [<-|Hin]; [now left|]. right.
  apply in_app_or in Hin. destruct Hin as [Hin|Hin].
  - right. apply (Permutation_in _ (Permutation_sym
                                     (proj2 (qsort_uwe_sorted _)))) in Hin.
    apply filter_In in Hin. tauto.
  - apply in_app_or in Hin. destruct Hin as [Hin|[<-|[]]]; [|now left].
    right. apply filter_In in Hin. tauto.
Qed.

Lemma group_lines_nil name cl : group_lines name cl = [] <-> cl = [].
Proof.
  unfold group_lines. destruct cl; [tauto|]. split; discriminate.
Qed.

Lemma out_lines_groups b :
  out_lines b
  = (group_lines "SCRIPTS" (cat_scripts b)
     ++ group_lines "MEDIA" (cat_media b)
     ++ group_lines "API / ENDPOINTS" (cat_api b)
     ++ group_lines "DOCUMENTS / CONFIG" (cat_docs b)
     ++ group_lines "HTML / FRAMEWORK" (cat_html_list b)
     ++ group_lines "OTHER" (cat_other b))%list.
Proof. unfold out_lines. cbn. now rewrite app_nil_r. Qed.

(** X16: the output of a scrape holds every URL that was kept, and each
    of its lines is a category label, a kept URL or the empty line that
    closes a group; it is empty exactly when no URL was kept, which is
    when "No URLs matched" is printed instead. *)
Theorem out_lines_kept (f : ScrapeFlags) (all_urls : list string) :
  (forall u, In u (kept_urls f all_urls) ->
             In u (out_lines (fill_buckets f all_urls))) /\
  (forall l, In l (out_lines (fill_buckets f all_urls)) ->
             In l names \/ l = "" \/ In l (kept_urls f all_urls)) /\
  (out_lines (fill_buckets f all_urls) = [] <-> kept_urls f all_urls = []).
Proof.
  unfold kept_urls. generalize (fill_buckets f all_urls) as b. intros b.
  rewrite out_lines_groups. unfold bucket_list. cbn [concat].
  rewrite app_nil_r. split; [|split].
  - intros u Hin.
    repeat (apply in_app_or in Hin; destruct Hin as [Hin|Hin];
            [repeat (try (apply in_or_app; left; now apply group_lines_In);
                     apply in_or_app; right)|]).
    repeat (try (apply in_or_app; left; now apply group_lines_In);
            apply in_or_app; right).
    now apply group_lines_In.
  - intros l Hin. unfold names. cbn [In].
    repeat (apply in_app_or in Hin; destruct Hin as [Hin|Hin];
            [apply group_lines_lines in Hin;
             destruct Hin as [->|[->|Hin]]; [tauto | tauto |];
             right; right;
             repeat (try (apply in_or_app; left; exact Hin);
                     apply in_or_app; right); exact Hin|]).
    apply group_lines_lines in Hin.
    destruct Hin as [->|[->|Hin]]; [tauto | tauto |].
    right; right.
    repeat (try (apply in_or_app; left; exact Hin); apply in_or_app; right).
    exact Hin.
  - split; intros E;
      repeat (apply app_eq_nil in E; destruct E as [? E]);
      repeat match goal with
             | H : group_lines _ _ = [] |- _ =>
                 apply group_lines_nil in H; rewrite H; clear H
             | H : ?l = [] |- _ => rewrite H; clear H
             end; try (apply group_lines_nil in E; rewrite E); try rewrite E;
      reflexivity.
Qed.

Lemma out_lines_kept_witness :
  let f := parse_flags ["-s"; "--no-media"] no_flags in
  let urls := ["http://a.example/x.js"; "http://a.example/y.png"] in
  kept_urls f urls = [] /\ out_lines (fill_buckets f urls) = [].
Proof.
  split; [reflexivity|].
  apply (proj2 (proj2 (proj2 (out_lines_kept
                                (parse_flags ["-s"; "--no-media"] no_flags)
                                ["http://a.example/x.js";
                                 "http://a.example/y.png"])))).
  reflexivity.
Defined.

(** ** Command parsing *)

Lemma parse_command_not_help tokens :
  parse_command tokens <> Help /\ parse_command tokens <> NightOpsStandalone.
Proof.
  unfold parse_command. destruct (locate_url tokens) as [[url|] args];
    [|split; discriminate].
  destruct (night_ops_checks args) as [r|[[n sd] args2]];
    [split; discriminate|].
  destruct (existsb _ args2); [split; discriminate|].
  destruct (first_unknown_flag args2); split; discriminate.
Qed.

(** X17: the help text and the lone self-destruct are asked for by a line
    with one token only: [-h] or [--help], and [--night-ops]. *)
Theorem parse_line_sole_token (raw : string) :
  (parse_line raw = Help
   <-> split_tokens (chomp raw) 64 = ["-h"]
       \/ split_tokens (chomp raw) 64 = ["--help"]) /\
  (parse_line raw = NightOpsStandalone
   <-> split_tokens (chomp raw) 64 = ["--night-ops"]).
Proof.
  unfold parse_line. destruct (chomp raw) as [|c line] eqn:Hc.
  - split; split; try discriminate; intros H; cbn in H;
      try destruct H; discriminate.
  - destruct (split_tokens (String c line) 64) as [|t [|t' l]] eqn:Ht.
    + split; split; try discriminate; intros H; try destruct H; discriminate.
    + destruct (parse_command_not_help [t]) as [Hh Hn].
      destruct (streq t "-h") eqn:E1; [apply streq_eq in E1; subst|].
      { split; split; auto; try discriminate. }
      destruct (streq t "--help") eqn:E2; [apply streq_eq in E2; subst|].
      { split; split; auto; try discriminate. }
      cbn [orb].
      destruct (streq t "--night-ops") eqn:E3; [apply streq_eq in E3; subst|].
      { split; split; auto; try discriminate.
        intros [H|H]; discriminate. }
      split; split; try contradiction.
      * intros [[= ->]|[= ->]]; discriminate.
      * intros [= ->]. discriminate.
    + destruct (parse_command_not_help (t :: t' :: l)) as [Hh Hn].
      split; split; try contradiction.
      * intros [H|H]; discriminate.
      * discriminate.
Qed.

Lemma chomp_chars c raw : char_in c (chomp raw) -> char_in c raw.
Proof.
  induction raw as [|a raw IH]; cbn [chomp]; [tauto|].
  destruct raw as [|b raw].
  - destruct (Ascii.eqb a newline); cbn [char_in]; tauto.
  - cbn [char_in] in *. tauto.
Qed.

Lemma skip_spaces_blank s :
  (forall c, char_in c s -> isspace c = true) -> skip_spaces s = "".
Proof.
  induction s as [|a s IH]; intros Hs; [reflexivity|].
  cbn [skip_spaces]. rewrite (Hs a (or_introl eq_refl)).
  apply IH. intros c Hc. apply Hs. now right.
Qed.

(** X18: a line that is empty or holds white space only is turned down
    with one of the two "No URL detected" messages, whatever its
    length. *)
Theorem parse_line_blank (raw : string) :
  (forall c, char_in c raw -> isspace c = true) ->
  parse_line raw = Rejected EmptyLine \/ parse_line raw = Rejected NoTokens.
Proof.
  intros Hs. unfold parse_line.
  destruct (chomp raw) as [|c line] eqn:Hc; [now left|]. right.
  assert (Hb : skip_spaces (String c line) = "").
  { apply skip_spaces_blank. intros d Hd. apply Hs. apply chomp_chars.
    now rewrite Hc. }
  unfold split_tokens. now rewrite Hb.
Qed.

Lemma parse_line_blank_witness :
  parse_line (String " " (String "009" (String newline ""))) = Rejected NoTokens.
Proof.
  destruct (parse_line_blank
              (String " " (String "009" (String newline "")))) as [E|E].
  - intros c [<-|[<-|[<-|[]]]]; reflexivity.
  - discriminate E.
  - exact E.
Defined.

Lemma is_night_ops_present args :
  In "--night-ops" args -> existsb is_night_ops args = true.
Proof.
  intros Hin. apply existsb_exists. exists "--night-ops".
  split; [exact Hin | reflexivity].
Qed.

(** X19: a line with a URL and [--night-ops] among its flags, but no
    [-sd], is turned down: the self-destruct with a URL must be
    scheduled. *)
Theorem night_ops_without_sd_rejected (raw url : string)
  (args : list string) :
  locate_url (split_tokens (chomp raw) 64) = (Some url, args) ->
  In "--night-ops" args -> ~ In "-sd" args ->
  parse_line raw = Rejected NightOpsWithoutSd.
Proof.
  intros Hloc Hno Hsd. rewrite (parse_line_with_url _ _ _ Hloc).
  unfold parse_command. rewrite Hloc. unfold night_ops_checks, parse_sd.
  rewrite (is_night_ops_present _ Hno).
  pose proof (split_at_sd_spec args) as Hs.
  destruct (split_at_sd args) as [[before rest]|].
  - destruct Hs as [-> _]. elim Hsd. apply in_or_app. right. now left.
  - reflexivity.
Qed.

Lemma night_ops_without_sd_rejected_witness :
  parse_line "example.com -s --night-ops" = Rejected NightOpsWithoutSd.
Proof.
  apply (night_ops_without_sd_rejected "example.com -s --night-ops"
           "https://example.com" ["-s"; "--night-ops"] eq_refl).
  - cbn. tauto.
  - cbn. intuition discriminate.
Defined.

Lemma first_unknown_flag_none args :
  first_unknown_flag args = None ->
  forall a, In a args -> starts_dash a = true -> In a valid_flags.
Proof.
  induction args as [|b args IH]; cbn [first_unknown_flag]; [intros _ a []|].
  destruct (starts_dash b) eqn:Eb; cbn [negb].
  - destruct (known_flag b) eqn:Ek; [|discriminate].
    intros Hn a [<-|Ha] Hd; [now apply known_flag_In | now apply IH].
  - intros Hn a [<-|Ha] Hd; [congruence | now apply IH].
Qed.

Lemma parse_sd_seconds args sd_seconds args1 :
  parse_sd args = inr (sd_seconds, args1) ->
  (sd_seconds = (-1)%Z /\ ~ In "-sd" args) \/ (0 < sd_seconds)%Z.
Proof.
  unfold parse_sd. pose proof (split_at_sd_spec args) as Hs.
  destruct (split_at_sd args) as [[before rest]|].
  - destruct (duration_tokens rest) as [run after].
    destruct (durbuf_of run); [discriminate|].
    destruct (_ <=? 0)%Z eqn:E; [discriminate|].
    intros [= <- _]. right. now apply Z.leb_gt in E.
  - intros [= <- _]. now left.
Qed.

(** X20: what reaches [run_html_mode] has been checked: the self-destruct
    flag comes with a positive delay and the delay with the flag, the
    arguments hold no [--night-ops] and no [-n], and every argument that
    begins with a dash is one of [valid_flags]. *)
Theorem scrape_is_validated (raw url : string) (args : list string)
  (night_ops : bool) (sd_seconds : Z) :
  parse_line raw = Scrape url args night_ops sd_seconds ->
  ((night_ops = true /\ (0 < sd_seconds)%Z)
   \/ (night_ops = false /\ sd_seconds = (-1)%Z)) /\
  ~ In "--night-ops" args /\ ~ In "-n" args /\
  (forall a, In a args -> starts_dash a = true -> In a valid_flags).
Proof.
  intros Hline.
  assert (Hcmd : exists tokens,
             parse_command tokens = Scrape url args night_ops sd_seconds).
  { unfold parse_line in Hline. destruct (chomp raw); [discriminate|].
    destruct (split_tokens _ 64) as [|t [|t' l]]; [discriminate| |eauto].
    destruct (_ || _); [discriminate|].
    destruct (streq t "--night-ops"); [discriminate | eauto]. }
  destruct Hcmd as [tokens Hcmd]. unfold parse_command in Hcmd.
  destruct (locate_url tokens) as [[url'|] args0]; [|discriminate].
  destruct (night_ops_checks args0) as [r|[[n sd] args2]] eqn:Hchk;
    [discriminate|].
  destruct (existsb _ args2) eqn:Hn; [discriminate|].
  destruct (first_unknown_flag args2) eqn:Hu; [discriminate|].
  injection Hcmd as <- <- <- <-.
  destruct (night_ops_checks_args _ _ _ _ Hchk) as [Hsub _].
  unfold night_ops_checks in Hchk.
  destruct (parse_sd args0) as [r|[sd' args1]] eqn:Hsd; [discriminate|].
  pose proof (parse_sd_seconds _ _ _ Hsd) as Hrange.
  destruct (existsb is_night_ops args0) eqn:Hno.
  - cbn [negb andb] in Hchk. rewrite andb_false_r in Hchk. cbn [andb] in Hchk.
    destruct (sd' <? 0)%Z eqn:Elt; [discriminate|].
    apply Z.ltb_ge in Elt. injection Hchk as <- <- <-.
    repeat split.
    + left. split; [reflexivity | lia].
    + intros Hin. apply filter_In in Hin. destruct Hin as [_ Hin].
      discriminate Hin.
    + intros Hin. apply existsb_streq_In in Hin. congruence.
    + now apply first_unknown_flag_none.
  - cbn [negb andb] in Hchk. rewrite andb_true_r in Hchk.
    destruct (0 <=? sd')%Z eqn:Ele; [discriminate|].
    apply Z.leb_gt in Ele. injection Hchk as <- <- <-.
    repeat split.
    + right. split; [reflexivity | lia].
    + intros Hin. apply Hsub in Hin. apply is_night_ops_present in Hin.
      congruence.
    + intros Hin. apply existsb_streq_In in Hin. congruence.
    + now apply first_unknown_flag_none.
Qed.

Lemma scrape_is_validated_witness :
  parse_line "example.com --night-ops -sd 1h 30m -s"
  = Scrape "https://example.com" ["-s"] true 5400 /\
  ~ In "--night-ops" ["-s"] /\ ~ In "-n" ["-s"].
Proof.
  split; [reflexivity|].
  destruct (scrape_is_validated "example.com --night-ops -sd 1h 30m -s"
              "https://example.com" ["-s"] true 5400 eq_refl)
    as (_ & Hno & Hn & _).
  split; assumption.
Defined.

(** ** URL extraction *)

(** X21: the extractor finds no URL exactly in the texts where none of
    "http://", "https://" and "blob:" occurs. *)
Theorem extract_urls_from_html_nil (html : string) :
  extract_urls_from_html html [] = []
  <-> ~ contains html "http://" /\ ~ contains html "https://"
      /\ ~ contains html "blob:".
Proof.
  rewrite extract_urls_from_html_passes.
  rewrite <- !strstr_none_contains.
  rewrite <- (scan_scheme_nil Http), <- (scan_scheme_nil Https),
    <- (scan_scheme_nil Blob).
  split.
  - intros E. apply app_eq_nil in E. destruct E as [E1 E].
    apply app_eq_nil in E. tauto.
  - intros (-> & -> & ->). reflexivity.
Qed.

(** ** The session *)

Lemma cut_at_last_sep_none base :
  (forall c, char_in c base -> is_sep c = false) ->
  cut_at_last_sep base = None.
Proof.
  induction base as [|a base IH]; intros Hb; [reflexivity|].
  cbn [cut_at_last_sep]. rewrite IH by (intros c Hc; apply Hb; now right).
  now rewrite (Hb a (or_introl eq_refl)).
Qed.

Lemma cut_at_last_sep_found dir sep base :
  is_sep sep = true ->
  (forall c, char_in c base -> is_sep c = false) ->
  cut_at_last_sep (dir ++ String sep base) = Some dir.
Proof.
  intros Hs Hb. induction dir as [|a dir IH]; cbn [append cut_at_last_sep].
  - now rewrite (cut_at_last_sep_none base Hb), Hs.
  - now rewrite IH.
Qed.

(** X22: the cache directory is [.kno-url] in the directory of the
    executable: what stands before the last slash or backslash of its
    path, and the current directory when the path has neither. *)
Theorem kno_dir_of_spec (base : string) :
  (forall c, char_in c base -> is_sep c = false) ->
  kno_dir_of base = "./.kno-url" /\
  (forall dir sep,
      is_sep sep = true ->
      kno_dir_of (dir ++ String sep base) = dir ++ "/.kno-url").
Proof.
  intros Hb. unfold kno_dir_of. split.
  - now rewrite cut_at_last_sep_none.
  - intros dir sep Hs. now rewrite cut_at_last_sep_found.
Qed.

Lemma kno_dir_of_spec_witness :
  kno_dir_of "kno-url" = "./.kno-url" /\
  kno_dir_of "/opt/kno/kno-url" = "/opt/kno/.kno-url".
Proof.
  assert (Hb : forall c, char_in c "kno-url" -> is_sep c = false)
    by (intros c Hc; cbn in Hc;
        repeat (destruct Hc as [<-|Hc]; [reflexivity|]); destruct Hc).
  split.
  - apply (proj1 (kno_dir_of_spec "kno-url" Hb)).
  - apply (proj2 (kno_dir_of_spec "kno-url" Hb) "/opt/kno" "/"%char).
    reflexivity.
Defined.

Section SessionFrame.

Context {FS : Type} `{OS FS}.
Variable g_exe_path : option string.

Lemma say_all_fs lines (w : World FS) : fs (say_all lines w) = fs w.
Proof.
  unfold say_all. revert w. induction lines as [|l lines IH]; intros w;
    [reflexivity|]. cbn [fold_left]. now rewrite IH.
Qed.

Lemma complain_all_fs errors (w : World FS) :
  fs (fold_left (fun w e => log (Err e) w) errors w) = fs w.
Proof.
  revert w. induction errors as [|e errors IH]; intros w; [reflexivity|].
  cbn [fold_left]. now rewrite IH.
Qed.

Lemma write_output_fs path content done (w : World FS) :
  fs (write_output path content done w) = fs w \/
  write_file (fs w) path content = Some (fs (write_output path content done w)).
Proof.
  unfold write_output. destruct (write_file (fs w) path content);
    [now right | now left].
Qed.

(** X23: a scrape writes at most one file, the one named after [-o], and
    only when the page was fetched; in every other case it leaves the
    file system as it was.  It reads nothing from standard input. *)
Theorem run_html_mode_frame (url : string) (args : list string)
  (w : World FS) :
  stdin (run_html_mode url args w) = stdin w /\
  (fs (run_html_mode url args w) = fs w \/
   exists path content html,
     output_file (parse_flags args no_flags) = Some path /\
     fetch_html url = Html html /\
     write_file (fs w) path content = Some (fs (run_html_mode url args w))).
Proof.
  split; [apply run_html_mode_stdin|].
  unfold run_html_mode.
  destruct (fetch_html url) as [html|errors] eqn:Hf.
  - destruct (full_mode _).
    + destruct (output_file _) as [path|] eqn:Ho; [|now left].
      match goal with
      | |- context [write_output ?p ?c ?d ?w0] =>
          destruct (write_output_fs p c d w0) as [E|E]
      end; [left; exact E|].
      right. exists path, html, html. auto.
    + destruct (out_lines _) as [|l lines] eqn:Hl; [now left|].
      destruct (output_file _) as [path|] eqn:Ho.
      * match goal with
        | |- context [write_output ?p ?c ?d ?w0] =>
            destruct (write_output_fs p c d w0) as [E|E]
        end.
        -- left. cbn [fs] in *. rewrite E. now rewrite say_all_fs.
        -- right. rewrite say_all_fs in E. exists path. eexists. exists html.
           repeat split; try reflexivity. exact E.
      * left. now rewrite say_all_fs.
  - left. now rewrite complain_all_fs.
Qed.

Lemma night_ops_cleanup_trace (w : World FS) :
  exists events,
    trace (night_ops_cleanup g_exe_path w)
    = (events
       ++ [Out ("[+] Self-destruct complete. Exiting."
                ++ String newline "")])%list.
Proof. unfold night_ops_cleanup, say, log. cbn [trace]. eauto. Qed.

(** How a turn can end the loop: at the end of the input, or after the
    cleanup. *)
Lemma main_iteration_return (w w' : World FS) code :
  main_iteration g_exe_path w = Return code w' ->
  code = 0%Z /\
  (stdin w' = "" \/
   exists events,
     trace w'
     = (events
        ++ [Out ("[+] Self-destruct complete. Exiting."
                 ++ String newline "")])%list).
Proof.
  unfold main_iteration. cbn [log stdin fs trace].
  destruct (fgets MAX_LINE (stdin w)) as [[raw rest]|] eqn:Hg.
  - destruct (parse_line raw) as [r| | |url|url args n sd]; cbn [dispatch].
    + discriminate.
    + discriminate.
    + match goal with
      | |- context [read_answer ?w0] =>
          destruct (read_answer w0) as [[ans|] w1]
      end; [|discriminate].
      destruct (affirmative ans); [|discriminate].
      intros [= <- <-]. split; [reflexivity|]. right.
      apply night_ops_cleanup_trace.
    + match goal with
      | |- context [read_answer ?w0] =>
          destruct (read_answer w0) as [[ans|] w1]
      end; [destruct (affirmative ans)|]; discriminate.
    + destruct (n && _); [|discriminate].
      intros [= <- <-]. split; [reflexivity|]. right.
      apply night_ops_cleanup_trace.
  - intros [= <- <-]. split; [reflexivity|]. left.
    revert Hg. unfold fgets, log. cbn [stdin]. now destruct (stdin w).
Qed.

Lemma main_loop_exit (w : World FS) :
  fst (main_loop g_exe_path w) = 0%Z /\
  (stdin (snd (main_loop g_exe_path w)) = "" \/
   exists events,
     trace (snd (main_loop g_exe_path w))
     = (events
        ++ [Out ("[+] Self-destruct complete. Exiting."
                 ++ String newline "")])%list).
Proof.
  funelim (main_loop g_exe_path w).
  - assumption.
  - cbn [fst snd].
    match goal with
    | E : main_iteration _ _ = Return _ _ |- _ =>
        exact (main_iteration_return _ _ _ E)
    end.
Qed.

(** X25: network mode is a stub: a line with a URL and [-n] among its
    flags, without [-sd] and [--night-ops], fetches nothing and leaves
    the file system as it was, whatever the answer to the warning and
    whatever other flags the line has; the loop goes on. *)
Theorem network_mode_is_stub (w : World FS) (raw rest url : string)
  (args : list string) :
  fgets MAX_LINE (stdin w) = Some (raw, rest) ->
  locate_url (split_tokens (chomp raw) 64) = (Some url, args) ->
  In "-n" args -> ~ In "-sd" args -> ~ In "--night-ops" args ->
  parse_line raw = NetworkMode url /\
  exists w' printed,
    main_iteration g_exe_path w = Continue w' /\
    fs w' = fs w /\
    trace w' = (trace w ++ printed)%list /\ Forall is_output printed.
Proof.
  intros Hget Hloc Hn Hsd Hno.
  assert (Hline : parse_line raw = NetworkMode url).
  { rewrite (parse_line_with_url _ _ _ Hloc). unfold parse_command.
    rewrite Hloc. unfold night_ops_checks, parse_sd.
    rewrite (is_night_ops_absent _ Hno).
    pose proof (split_at_sd_spec args) as Hs.
    destruct (split_at_sd args) as [[before after]|].
    - destruct Hs as [-> _]. elim Hsd. apply in_or_app. right. now left.
    - cbn. apply existsb_streq_In in Hn. now rewrite Hn. }
  split; [exact Hline|].
  unfold main_iteration. cbn [log stdin]. rewrite Hget, Hline.
  cbn [dispatch]. unfold read_answer. cbn [log stdin fs trace].
  destruct (fgets 16 rest) as [[ans rest']|].
  - destruct (affirmative ans); eexists; eexists; unfold say, log;
      cbn [stdin fs trace];
      (repeat split; [rewrite <- !app_assoc; reflexivity | repeat constructor]).
  - eexists; eexists. unfold log. cbn [stdin fs trace].
    repeat split; [rewrite <- !app_assoc; reflexivity | repeat constructor].
Qed.

End SessionFrame.

Lemma network_mode_is_stub_witness :
  parse_line "example.com -n -zz" = NetworkMode "https://example.com" /\
  exists w' printed,
    @main_iteration _ (MemFs.os "") None (initial_world "example.com -n -zz")
    = Continue w' /\
    fs w' = MemFs.disk /\
    trace w' = printed /\ Forall is_output printed.
Proof.
  refine (@network_mode_is_stub _ (MemFs.os "") None
            (initial_world "example.com -n -zz") "example.com -n -zz" ""
            "https://example.com" ["-n"; "-zz"] eq_refl eq_refl _ _ _);
    cbn; intuition discriminate.
Defined.

(** X15: the lines of a category that is not empty are its label, the
    URLs with an extension in ascending order of (extension, URL), the
    URLs without one in the order in which they were met, and an empty
    line. *)
Theorem group_lines_order (name : string) (cl : list string) :
  cl <> [] ->
  exists sorted,
    group_lines name cl
    = (name :: sorted ++ filter (fun u => negb (has_ext u)) cl ++ [""])%list
    /\ Sorted uwe_le sorted /\ Permutation (filter has_ext cl) sorted.
Proof.
  intros Hne. exists (qsort_uwe (filter has_ext cl)).
  destruct (qsort_uwe_sorted (filter has_ext cl)) as [Hs Hp].
  repeat split; auto. unfold group_lines. now destruct cl.
Qed.

Lemma group_lines_order_witness :
  exists sorted,
    group_lines "SCRIPTS"
      ["http://a.example/z.js"; "http://a.example/run";
       "http://a.example/b.mjs"; "http://a.example/a.js"]
    = ("SCRIPTS" :: sorted ++ ["http://a.example/run"] ++ [""])%list
    /\ Sorted uwe_le sorted
    /\ Permutation
         ["http://a.example/z.js"; "http://a.example/b.mjs";
          "http://a.example/a.js"] sorted.
Proof.
  apply (group_lines_order "SCRIPTS"
           ["http://a.example/z.js"; "http://a.example/run";
            "http://a.example/b.mjs"; "http://a.example/a.js"]).
  discriminate.
Defined.

Lemma split_at_sd_first pre rest :
  ~ In "-sd" pre -> split_at_sd (pre ++ "-sd" :: rest) = Some (pre, rest).
Proof.
  induction pre as [|a pre IH]; intros Hn; [reflexivity|].
  cbn [app split_at_sd].
  destruct (streq a "-sd") eqn:E;
    [apply streq_eq in E; subst; elim Hn; now left|].
  rewrite IH; [reflexivity|]. intros Hin. apply Hn. now right.
Qed.

Lemma duration_tokens_run run after :
  Forall (fun a => starts_dash a = false) run ->
  match after with
  | [] => True
  | a :: _ => starts_dash a = true
  end ->
  duration_tokens (run ++ after) = (run, after).
Proof.
  intros Hrun Ha. induction Hrun as [|a run Hd _ IH]; cbn [app].
  - destruct after as [|a after]; [reflexivity|].
    cbn [duration_tokens]. now rewrite Ha.
  - cbn [duration_tokens]. now rewrite Hd, IH.
Qed.

(** X26: [-sd] takes the arguments that follow it, up to the next one
    that begins with a dash, as its duration, joined by single spaces and
    cut to the 127 characters of the buffer; only the first [-sd] is
    served, and it is taken out of the arguments together with its
    duration. *)
Theorem parse_sd_run (pre run after : list string) :
  ~ In "-sd" pre ->
  Forall (fun a => starts_dash a = false) run ->
  match after with
  | [] => True
  | a :: _ => starts_dash a = true
  end ->
  parse_sd (pre ++ "-sd" :: run ++ after)
  = match durbuf_of run with
    | EmptyString => inl SdNeedsDuration
    | durbuf =>
        if (parse_duration_seconds durbuf <=? 0)%Z
        then inl (SdInvalid durbuf)
        else inr (parse_duration_seconds durbuf, (pre ++ after)%list)
    end.
Proof.
  intros Hpre Hrun Hafter. unfold parse_sd.
  rewrite (split_at_sd_first pre (run ++ after) Hpre).
  rewrite (duration_tokens_run run after Hrun Hafter).
  now destruct (durbuf_of run).
Qed.

Lemma parse_sd_run_witness :
  parse_sd ["-s"; "-sd"; "1h"; "30m"; "--night-ops"; "-sd"; "5"]
  = inr (5400%Z, ["-s"; "--night-ops"; "-sd"; "5"]).
Proof.
  apply (parse_sd_run ["-s"] ["1h"; "30m"] ["--night-ops"; "-sd"; "5"]).
  - cbn. intuition discriminate.
  - repeat constructor.
  - reflexivity.
Defined.

Lemma scan_for_url_first pre t rest :
  Forall (fun a => looks_like_url a = false) pre ->
  looks_like_url t = true ->
  scan_for_url (pre ++ t :: rest) = Some (t, rest).
Proof.
  intros Hpre Ht. induction Hpre as [|a pre Ha _ IH]; cbn [app scan_for_url].
  - now rewrite Ht.
  - now rewrite Ha.
Qed.

Lemma scan_for_url_none tokens :
  Forall (fun a => looks_like_url a = false) tokens ->
  scan_for_url tokens = None.
Proof.
  induction 1 as [|a l Ha _ IH]; cbn [scan_for_url]; [reflexivity|].
  now rewrite Ha.
Qed.

(** X27: when the first token begins with a dash and is not [-u], the
    URL is the first token that begins with "http://", "https://" or
    "www."; the tokens in front of it are dropped and those after it are
    the flags.  Without such a token the line has no URL, whatever else
    it holds. *)
Theorem locate_url_fallback (t0 : string) (pre : list string) :
  starts_dash t0 = true -> t0 <> "-u" ->
  Forall (fun a => looks_like_url a = false) pre ->
  (forall t rest,
      looks_like_url t = true ->
      locate_url (t0 :: pre ++ t :: rest)
      = (normalize_url t, firstn 64 rest)) /\
  parse_command (t0 :: pre) = Rejected NoUrl.
Proof.
  intros Hd Hu Hpre.
  assert (E : streq t0 "-u" = false).
  { destruct (streq t0 "-u") eqn:E; [|reflexivity].
    apply streq_eq in E. contradiction. }
  assert (H0 : looks_like_url t0 = false).
  { destruct t0 as [|c t0]; [discriminate|]. cbn in Hd.
    apply Ascii.eqb_eq in Hd. subst c. reflexivity. }
  split.
  - intros t rest Ht. unfold locate_url. rewrite E, Hd. cbn [negb].
    change (t0 :: pre ++ t :: rest) with ((t0 :: pre) ++ t :: rest)%list.
    rewrite (scan_for_url_first (t0 :: pre) t rest); [|now constructor|exact Ht].
    now destruct pre.
  - unfold parse_command, locate_url. rewrite E, Hd. cbn [negb].
    rewrite (scan_for_url_none (t0 :: pre)) by now constructor.
    now destruct pre.
Qed.

Lemma locate_url_fallback_witness :
  locate_url ["-s"; "example.com"; "www.example.org"; "-md"]
  = (Some "https://www.example.org", ["-md"]) /\
  parse_command ["-s"; "example.com"] = Rejected NoUrl.
Proof.
  destruct (locate_url_fallback "-s" ["example.com"]) as [Hfound Hnone].
  - reflexivity.
  - discriminate.
  - repeat constructor.
  - split; [|exact Hnone].
    apply (Hfound "www.example.org" ["-md"]). reflexivity.
Defined.

Lemma token_of_contains sc text t : token_of sc text t -> contains text t.
Proof. intros (pre & post & E & _). now exists pre, post. Qed.

Lemma extract_urls_from_html_tokens html t :
  In t (extract_urls_from_html html []) ->
  contains html t /\ well_formed_url t.
Proof.
  rewrite extract_urls_from_html_passes. intros Hin.
  assert (Htok : exists sc, token_of sc html t).
  { apply in_app_or in Hin. destruct Hin as [Hin|Hin].
    - exists Http.
      exact (proj1 (Forall_forall _ _) (scan_scheme_tokens Http html) t Hin).
    - apply in_app_or in Hin. destruct Hin as [Hin|Hin].
      + exists Https.
        exact (proj1 (Forall_forall _ _) (scan_scheme_tokens Https html) t Hin).
      + exists Blob.
        exact (proj1 (Forall_forall _ _) (scan_scheme_tokens Blob html) t Hin). }
  destruct Htok as [sc Htok]. split.
  - eapply token_of_contains; eassumption.
  - eapply token_of_well_formed; eassumption.
Qed.

(** X28: from the page to the output: every line that a scrape prints
    is a category label, an empty line, or a URL that occurs in the page
    as it was fetched, passes the filters of the line, begins with one
    of the three scheme literals and holds no white space, quote or
    angle bracket. *)
Theorem scrape_lines_from_page (f : ScrapeFlags) (html line : string) :
  In line (out_lines (fill_buckets f (extract_urls_from_html html []))) ->
  In line names \/ line = "" \/
  (contains html line /\ well_formed_url line
   /\ passes_filters f line = true).
Proof.
  intros Hin. apply (proj1 (proj2 (out_lines_kept f _))) in Hin.
  destruct Hin as [Hin|[Hin|Hin]]; [now left | now right; left|].
  right; right. apply kept_urls_In in Hin. destruct Hin as [Hin Hp].
  apply extract_urls_from_html_tokens in Hin. tauto.
Qed.

Lemma scrape_lines_from_page_witness :
  let html := "<img src='https://example.com/cat.jpg'> <a href='/about'>" in
  let f := parse_flags ["-md"] no_flags in
  out_lines (fill_buckets f (extract_urls_from_html html []))
  = ["MEDIA"; "https://example.com/cat.jpg"; ""] /\
  contains html "https://example.com/cat.jpg".
Proof.
  split; [reflexivity|].
  destruct (scrape_lines_from_page (parse_flags ["-md"] no_flags)
              "<img src='https://example.com/cat.jpg'> <a href='/about'>"
              "https://example.com/cat.jpg") as [Hn|[He|[Hc _]]].
  - vm_compute. tauto.
  - exfalso. cbn in Hn. intuition discriminate.
  - discriminate He.
  - exact Hc.
Defined.

(** X24: [main] always returns 0, and it returns either with the whole
    input read or right after the self-destruct has reported that it is
    complete. *)
Theorem main_exit {FS : Type} `{OS FS} (argv0 : option string)
  (w : World FS) :
  fst (main argv0 w) = 0%Z /\
  (stdin (snd (main argv0 w)) = "" \/
   exists events,
     trace (snd (main argv0 w))
     = (events
        ++ [Out ("[+] Self-destruct complete. Exiting."
                 ++ String newline "")])%list).
Proof. unfold main. apply main_loop_exit. Qed.
